(** * rwlockfile: a file-backed read/write lock

    Shallow embedding of [src/rwlockfile.ts].  The class [RWLockfile] keeps a
    per-handle reentrancy counter and a JSON record on disk listing the
    current writer job and reader jobs.  Stateful code is written in a small
    state-and-exception monad over the pair (handle, outside world). *)

From Stdlib Require Import ZArith QArith Qround Qabs Qpower Bool Lia Lqa
  FunctionalExtensionality.
From stdpp Require Import gmap strings list.

Local Open Scope Z_scope.
Local Open Scope string_scope.
Local Open Scope list_scope.

(** ** Data model *)

Inductive RWLockType := read | write.

(** [interface Job]; [created] is a [Date], kept as epoch milliseconds. *)
Record Job := mkJob {
  uuid : string;
  pid : Z;
  reason : option string;
  created : Z;
}.

(** [interface RWLockfileJSON] as held in memory. *)
Record RWLockfileJSON := mkJSON {
  version : string;
  writer : option Job;
  readers : list Job;
}.

(** A job as it sits in the file: [created] is an ISO string there, and a
    record written by someone else may lack it. *)
Record StoredJob := mkStored {
  s_uuid : string;
  s_pid : Z;
  s_reason : option string;
  s_created : option Z;
}.

Record StoredJSON := mkStoredJSON {
  s_version : string;
  s_writer : option StoredJob;
  s_readers : list StoredJob;
}.

(** What a path can hold: a JSON text of the record's shape, or anything
    else (on which [readJSON] or [_parseFile] throws). *)
Inductive FileContent :=
| JSONText (j : StoredJSON)
| Garbage.

(** [type Status]. *)
Inductive Status :=
| open (file : string)
| write_lock (job : Job) (file : string)
| read_lock (file : string) (jobs : list Job).

(** Modelled from the spec: [RWLockfileError] of ./errors, the failure of an
    acquisition, which carries the last status seen and has code 'ELOCK';
    the other constructors are what the file system and the Exclusive Guard
    can throw. *)
Inductive Error :=
| RWLockfileError (status : Status)
| ENOENT
| EJSON
| GuardAcquisitionError.

(** [interface IfLockedFn]: a caller-supplied callback, known by name;
    [noop] is the constructor's default [() => {}]. *)
Inductive IfLockedFn :=
| noop
| callback (name : string).

(** Calls that leave the handle: the callback and the timer; [EvTryLock]
    marks each attempt the acquisition loop starts. *)
Inductive Event :=
| EvTryLock (type : RWLockType)
| EvIfLocked (fn : IfLockedFn) (status : Status)
| EvWait (ms : Z).

Record Counts := mkCounts { count_read : nat; count_write : nat }.

(** The fields of [class RWLockfile]; [process_pid] is [process.pid] of the
    process the handle lives in. *)
Record RWLockfile := mkHandle {
  base : string;
  ifLocked : IfLockedFn;
  timeout : Q;
  retryInterval : Q;
  h_uuid : string;
  process_pid : Z;
  _count : Counts;
}.

Record RWLockfileOptions := mkHandleOptions {
  o_timeout : option Q;
  o_retryInterval : option Q;
  o_ifLocked : option IfLockedFn;
}.

Record RWLockOptions := mkLockOptions {
  opt_reason : option string;
  opt_ifLocked : option IfLockedFn;
  opt_timeout : option Q;
  opt_retryInterval : option Q;
}.

(** Everything outside the handle: the file system, the process liveness
    oracle ([None]: the oracle throws), the paths whose exclusive guard is
    held by somebody else, the clock and the trace of outgoing calls. *)
Record World := mkWorld {
  files : gmap string FileContent;
  active : Z → option bool;
  guarded : gset string;
  now : Z;
  events : list Event;
}.

Record State := mkState { this : RWLockfile; world : World }.

(** ** The monad: state, exceptions, and [None] for a computation that has
    not finished within the fuel or the script it was given. *)

Inductive Result (A : Type) :=
| Ok (a : A)
| Throw (e : Error).
Arguments Ok {A} a.
Arguments Throw {A} e.

Definition M (A : Type) : Type := State → option (Result A * State).

Definition ret {A} (a : A) : M A := fun s => Some (Ok a, s).
Definition throw {A} (e : Error) : M A := fun s => Some (Throw e, s).

Definition bind {A B} (m : M A) (k : A → M B) : M B := fun s =>
  match m s with
  | None => None
  | Some (Ok a, s') => k a s'
  | Some (Throw e, s') => Some (Throw e, s')
  end.

Definition try_catch {A} (m : M A) (h : Error → M A) : M A := fun s =>
  match m s with
  | Some (Throw e, s') => h e s'
  | r => r
  end.

Notation "'let*' x ':=' m 'in' k" := (bind m (fun x => k))
  (at level 10, x name, m at level 100, k at level 200).
Notation "m '>>>' k" := (bind m (fun _ => k))
  (at level 65, right associativity).

Definition get_this : M RWLockfile := fun s => Some (Ok (this s), s).
Definition get_world : M World := fun s => Some (Ok (world s), s).
Definition put_world (w : World) : M unit := fun s =>
  Some (Ok tt, mkState (this s) w).
Definition put_this (h : RWLockfile) : M unit := fun s =>
  Some (Ok tt, mkState h (world s)).

Fixpoint mapM {A B} (f : A → M B) (l : list A) : M (list B) :=
  match l with
  | [] => ret []
  | x :: l' => let* y := f x in let* ys := mapM f l' in ret (y :: ys)
  end.

(** ** Counters *)

Definition count (h : RWLockfile) (type : RWLockType) : nat :=
  match type with
  | read => count_read (_count h)
  | write => count_write (_count h)
  end.

Definition with_count (h : RWLockfile) (type : RWLockType) (n : nat) : RWLockfile :=
  mkHandle (base h) (ifLocked h) (timeout h) (retryInterval h) (h_uuid h)
    (process_pid h)
    match type with
    | read => mkCounts n (count_write (_count h))
    | write => mkCounts (count_read (_count h)) n
    end.

Definition set_count (type : RWLockType) (n : nat) : M unit :=
  let* h := get_this in put_this (with_count h type n).

(** [get file()]: [path.resolve(this.base + '.lock')], for a [base] that is
    already an absolute, normalised path. *)
Definition file (h : RWLockfile) : string := base h +:+ ".lock".

(** ** File system primitives of fs-extra *)

Definition set_files (w : World) (fs : gmap string FileContent) : World :=
  mkWorld fs (active w) (guarded w) (now w) (events w).

Definition fs_readJSON (path : string) : M StoredJSON :=
  let* w := get_world in
  match files w !! path with
  | None => throw ENOENT
  | Some Garbage => throw EJSON
  | Some (JSONText j) => ret j
  end.

(** [fs.remove]: removing a path that is not there is not an error. *)
Definition fs_remove (path : string) : M unit :=
  let* w := get_world in put_world (set_files w (delete path (files w))).

(** [fs.unlinkSync]: throws ENOENT on a path that is not there. *)
Definition fs_unlinkSync (path : string) : M unit :=
  let* w := get_world in
  match files w !! path with
  | None => throw ENOENT
  | Some _ => put_world (set_files w (delete path (files w)))
  end.

Definition fs_outputJSON (path : string) (j : StoredJSON) : M unit :=
  let* w := get_world in put_world (set_files w (<[path := JSONText j]> (files w))).

Definition log (e : Event) : M unit :=
  let* w := get_world in
  put_world (mkWorld (files w) (active w) (guarded w) (now w) (events w ++ [e])).

(** ** Collaborators that are not part of this file *)

(** Modelled from the spec: the [lockfile] decorator of ./decorators, which
    runs the method inside the Exclusive Guard of the handle's record path:
    acquire, run one critical section, release.  Acquisition fails with a
    guard error when the guard stays with another party; a method that calls
    a decorated method re-enters the guard it already holds. *)
Definition lockfile {A} (body : M A) : M A := fun s =>
  if decide (file (this s) ∈ guarded (world s))
  then Some (Throw GuardAcquisitionError, s)
  else body s.

(** Modelled from the spec: the [onceAtATime] decorator of ./decorators, the
    Call Coalescer.  It only matters for overlapping calls in one process;
    a call that does not overlap another runs as it is. *)
Definition onceAtATime {A} (body : M A) : M A := body.

(** [isActive] and [isActiveSync]: an oracle that throws counts as "not
    running". *)
Definition isActive (pid : Z) : M bool :=
  let* w := get_world in
  match active w pid with
  | Some b => ret b
  | None => ret false
  end.

Definition isActiveSync (pid : Z) : M bool := isActive pid.

(** ** The class [RWLockfile] *)

Section rwlockfile.

(** [require('../package.json').version]. *)
Variable pkg_version : string.

(** [constructor(base, options)]; the uuid and the process id come from the
    outside. *)
Definition or_num (o : option Q) (d : Q) : Q :=
  match o with
  | Some q => if Qeq_bool q 0 then d else q
  | None => d
  end.

Definition or_fn (o : option IfLockedFn) (d : IfLockedFn) : IfLockedFn :=
  match o with
  | Some f => f
  | None => d
  end.

Definition constructor (base : string) (options : RWLockfileOptions)
    (uuid_v4 : string) (process_pid : Z) : RWLockfile :=
  {| base := base;
     h_uuid := uuid_v4;
     process_pid := process_pid;
     timeout := or_num (o_timeout options) 30000;
     retryInterval := or_num (o_retryInterval options) 10;
     ifLocked := or_fn (o_ifLocked options) noop;
     _count := mkCounts 0 0 |}.

(** [_parseFile] and [_stringifyFile], with their local [addDate]. *)
Definition parse_addDate (job : StoredJob) : Job :=
  {| uuid := s_uuid job; pid := s_pid job; reason := s_reason job;
     created := match s_created job with Some d => d | None => 0 end |}.

Definition _parseFile (input : StoredJSON) : RWLockfileJSON :=
  {| version := s_version input;
     writer := parse_addDate <$> s_writer input;
     readers := map parse_addDate (s_readers input) |}.

Definition stringify_addDate (job : Job) : StoredJob :=
  {| s_uuid := uuid job; s_pid := pid job; s_reason := reason job;
     s_created := Some (created job) |}.

Definition _stringifyFile (input : RWLockfileJSON) : StoredJSON :=
  {| s_version := version input;
     s_writer := stringify_addDate <$> writer input;
     s_readers := map stringify_addDate (readers input) |}.

Definition empty_record : RWLockfileJSON :=
  {| version := pkg_version; writer := None; readers := [] |}.

Definition _fetchFile : M RWLockfileJSON :=
  try_catch
    (let* h := get_this in
     let* f := fs_readJSON (file h) in
     ret (_parseFile f))
    (fun err => ret empty_record).

Definition _fetchFileSync : M RWLockfileJSON := _fetchFile.

Definition is_empty (f : RWLockfileJSON) : bool :=
  match writer f, readers f with
  | None, [] => true
  | _, _ => false
  end.

Definition writeFile (f : RWLockfileJSON) : M unit :=
  let* h := get_this in
  if is_empty f then fs_remove (file h)
  else fs_outputJSON (file h) (_stringifyFile f).

Definition writeFileSync (f : RWLockfileJSON) : M unit :=
  let* h := get_this in
  if is_empty f then
    try_catch (fs_unlinkSync (file h))
      (fun err => match err with ENOENT => ret tt | _ => throw err end)
  else fs_outputJSON (file h) (_stringifyFile f).

Definition _statusFromFile (type : RWLockType) (f : RWLockfileJSON) : M Status :=
  let* h := get_this in
  match type, count h write with
  | write, S _ => ret (open (file h))
  | read, S _ => ret (open (file h))
  | _, O =>
    match writer f with
    | Some w => ret (write_lock w (file h))
    | None =>
      match type, readers f with
      | write, _ :: _ => ret (read_lock (file h) (readers f))
      | _, _ => ret (open (file h))
      end
    end
  end.

Definition includes (l : list Z) (x : Z) : bool := existsb (Z.eqb x) l.

(** [p => !!p] on the results of the asynchronous liveness map, where
    [undefined] is [None]: zero is falsy too. *)
Definition truthy (p : option Z) : option Z :=
  match p with
  | Some n => if Z.eqb n 0 then None else Some n
  | None => None
  end.

Definition delete_writer (f : RWLockfileJSON) : RWLockfileJSON :=
  {| version := version f; writer := None; readers := readers f |}.

Definition set_readers (f : RWLockfileJSON) (rs : list Job) : RWLockfileJSON :=
  {| version := version f; writer := writer f; readers := rs |}.

(** One pass of [check]; [check] is the method itself, called again after a
    purge. *)
Definition check_body (check : RWLockType → M Status) (type : RWLockType) : M Status :=
  lockfile (
    let* f := _fetchFile in
    let* status := _statusFromFile type f in
    match status with
    | open _ => ret status
    | write_lock job _ =>
      let* a := isActive (pid job) in
      if negb a then
        writeFile (delete_writer f) >>> check type
      else ret status
    | read_lock _ jobs =>
      let* pids := mapM (fun j =>
                     let* a := isActive (pid j) in
                     ret (if negb a then Some (pid j) else None)) jobs in
      let inactive := omap truthy pids in
      match inactive with
      | _ :: _ =>
        writeFile (set_readers f
          (List.filter (fun j => negb (includes inactive (pid j))) (readers f)))
        >>> check type
      | [] =>
        let* h := get_this in
        if negb (existsb (fun j => negb (String.eqb (uuid j) (h_uuid h))) jobs)
        then ret (open (file h))
        else ret status
      end
    end).

Definition checkSync_body (checkSync : RWLockType → M Status) (type : RWLockType) : M Status :=
  lockfile (
    let* f := _fetchFileSync in
    let* status := _statusFromFile type f in
    match status with
    | open _ => ret status
    | write_lock job _ =>
      let* a := isActiveSync (pid job) in
      if negb a then
        writeFileSync (delete_writer f) >>> checkSync type
      else ret status
    | read_lock _ jobs =>
      let* w := get_world in
      let inactive :=
        List.filter (fun p => negb (default false (active w p))) (map pid jobs) in
      match inactive with
      | _ :: _ =>
        writeFileSync (set_readers f
          (List.filter (fun j => negb (includes inactive (pid j))) (readers f)))
        >>> checkSync type
      | [] =>
        let* h := get_this in
        if negb (existsb (fun j => negb (String.eqb (uuid j) (h_uuid h))) jobs)
        then ret (open (file h))
        else ret status
      end
    end).

Fixpoint check_fuel (fuel : nat) (type : RWLockType) : M Status :=
  match fuel with
  | O => fun _ => None
  | S fuel' => check_body (check_fuel fuel') type
  end.

Fixpoint checkSync_fuel (fuel : nat) (type : RWLockType) : M Status :=
  match fuel with
  | O => fun _ => None
  | S fuel' => checkSync_body (checkSync_fuel fuel') type
  end.

(** A pass either answers or purges: the writer first, then the readers,
    then it answers; three passes are always enough ([check_fuel_enough]). *)
Definition check (type : RWLockType) : M Status := check_fuel 3 type.
Definition checkSync (type : RWLockType) : M Status := checkSync_fuel 3 type.

Definition addJob (type : RWLockType) (reason : option string) (f : RWLockfileJSON)
    : M RWLockfileJSON :=
  let* h := get_this in
  let* w := get_world in
  let job := {| reason := reason; pid := process_pid h; created := now w;
                uuid := h_uuid h |} in
  match type with
  | read => ret (set_readers f (readers f ++ [job]))
  | write => ret {| version := version f; writer := Some job; readers := readers f |}
  end.

Definition _removeJobFromFile (type : RWLockType) (f : RWLockfileJSON)
    : M RWLockfileJSON :=
  let* h := get_this in
  match type with
  | read =>
    ret (set_readers f
           (List.filter (fun r => negb (String.eqb (uuid r) (h_uuid h))) (readers f)))
  | write =>
    match writer f with
    | Some w => if String.eqb (uuid w) (h_uuid h) then ret (delete_writer f) else ret f
    | None => ret f
    end
  end.

Definition _removeJob (type : RWLockType) : M unit :=
  onceAtATime (lockfile (
    let* f := _fetchFile in
    let* f' := _removeJobFromFile type f in
    writeFile f')).

Definition _removeJobSync (type : RWLockType) : M unit :=
  lockfile (
    let* f := _fetchFileSync in
    let* f' := _removeJobFromFile type f in
    writeFileSync f').

Definition incr_count (type : RWLockType) : M unit :=
  let* h := get_this in set_count type (S (count h type)).

Definition tryLock (type : RWLockType) (reason : option string) (inc : bool) : M unit :=
  lockfile (
    let* h := get_this in
    match count h type with
    | S _ => if inc then incr_count type else ret tt
    | O =>
      let* status := check type in
      match status with
      | open _ =>
        let* f := _fetchFile in
        let* f' := addJob type reason f in
        writeFile f' >>>
        (if inc then incr_count type else ret tt)
      | _ => throw (RWLockfileError status)
      end
    end).

Definition _lockSync (type : RWLockType) (reason : option string) : M unit :=
  lockfile (
    let* h := get_this in
    match count h type with
    | S _ => incr_count type
    | O =>
      let* status := checkSync type in
      match status with
      | open _ =>
        let* f := _fetchFileSync in
        let* f' := addJob type reason f in
        writeFileSync f' >>>
        incr_count type
      | _ => throw (RWLockfileError status)
      end
    end).

(** ** Numbers

    A JavaScript number is an IEEE 754 binary64 double.  The finite doubles
    are kept as the rationals they denote, and [double x] is the double
    nearest to [x]: the multiple of the unit in the last place of [x] that is
    nearest to [x], a tie going to the even multiple.  The unit in the last
    place leaves 53 bits to the mantissa and is never below [2^-1074]
    (gradual underflow).  Numbers are taken to stay below [2^1024], where
    doubles overflow. *)

Definition pow2 (e : Z) : Q := (2 ^ e)%Q.

(** The binade of a positive [x]: the [e] with [2^e <= x < 2^(e+1)]. *)
Definition ilog2 (x : Q) : Z :=
  let k := Z.log2 (Qnum x) - Z.log2 (Zpos (Qden x)) in
  if Qle_bool (pow2 k) x then k else k - 1.

(** The integer nearest to [y], the even one of two that are equally near. *)
Definition rne (y : Q) : Z :=
  let f := Qfloor y in
  match (y - inject_Z f ?= 1 # 2)%Q with
  | Lt => f
  | Gt => f + 1
  | Eq => if Z.even f then f else f + 1
  end.

(** The exponent of the unit in the last place of [x]. *)
Definition ulp_exp (x : Q) : Z := Z.max (ilog2 (Qabs x)) (-1022) - 52.

Definition double (x : Q) : Q :=
  (inject_Z (rne (x / pow2 (ulp_exp x))) * pow2 (ulp_exp x))%Q.


(** [x + y], [x - y] and [x * y] on doubles. *)
Definition fadd (x y : Q) : Q := double (x + y).
Definition fsub (x y : Q) : Q := double (x - y).
Definition fmul (x y : Q) : Q := double (x * y).

(** [random(min, max)] at the draw [u] of [Math.random()]:
    [Math.floor(u * (max - min) + min)]. *)
Definition random (min max : Q) (u : Q) : Z :=
  Qfloor (fadd (fmul u (fsub max min)) min).

(** [once(fn)]: the wrapped function and its [ran] flag. *)
Record Once := mkOnce { once_fn : IfLockedFn; ran : bool }.

Definition once (fn : IfLockedFn) : Once := mkOnce fn false.

Definition call_once (o : Once) (status : Status) : M Once :=
  if ran o then ret o
  else log (EvIfLocked (once_fn o) status) >>> ret (mkOnce (once_fn o) true).

(** What one sleep of the loop meets: the draw of [Math.random()] that sets
    its length, a double in [0, 1), and what the other processes do to the
    world meanwhile. *)
Record Tick := mkTick { draw : Q; during : World → World }.

Definition wait (ms : Z) (t : Tick) : M unit :=
  log (EvWait ms) >>>
  let* w := get_world in
  let w' := during t w in
  put_world (mkWorld (files w') (active w') (guarded w') (now w') (events w)).

Definition Qltb (x y : Q) : bool := negb (Qle_bool y x).

(** The [while (true)] of [_lock]; it is suspended in [wait] ([None]) when
    the script of ticks runs out.  [opts.timeout] and [opts.retryInterval]
    are kept exact: halving and doubling a double, and taking whole
    milliseconds off a budget of whole milliseconds below [2^53], do not
    round. *)
Fixpoint _lock_loop (ticks : list Tick) (type : RWLockType) (reason : option string)
    (opts_timeout opts_retryInterval : Q) (ifLockedCb : Once) : M unit :=
  try_catch
    (log (EvTryLock type) >>> tryLock type reason false)
    (fun err =>
       match err with
       | RWLockfileError status =>
         let* ifLockedCb' := call_once ifLockedCb status in
         if Qltb opts_timeout 0 then throw err
         else
           match ticks with
           | [] => fun _ => None
           | t :: ticks' =>
             let interval :=
               random (opts_retryInterval / 2) (opts_retryInterval * 2) (draw t) in
             wait interval t >>>
             _lock_loop ticks' type reason
               (opts_timeout - inject_Z interval) (opts_retryInterval * 2) ifLockedCb'
           end
       | _ => throw err
       end).

Definition _lock (ticks : list Tick) (type : RWLockType) (opts : RWLockOptions) : M unit :=
  onceAtATime (
    let* h := get_this in
    let opts_timeout := or_num (opt_timeout opts) (timeout h) in
    let opts_retryInterval := or_num (opt_retryInterval opts) (retryInterval h) in
    let ifLockedCb := once (or_fn (opt_ifLocked opts) (ifLocked h)) in
    _lock_loop ticks type (opt_reason opts) opts_timeout opts_retryInterval ifLockedCb).

Definition add (ticks : list Tick) (type : RWLockType) (opts : RWLockOptions) : M unit :=
  let* h := get_this in
  match count h type with
  | O => _lock ticks type opts
  | S _ => ret tt
  end >>>
  incr_count type.

Definition addSync (type : RWLockType) (reason : option string) : M unit :=
  _lockSync type reason.

Definition unlock_type (type : RWLockType) : M unit :=
  let* h := get_this in
  match count h type with
  | O => ret tt
  | S _ => _removeJob type >>> set_count type 0
  end.

Definition unlock (type : option RWLockType) : M unit :=
  match type with
  | None => unlock_type read >>> unlock_type write
  | Some t => unlock_type t
  end.

Definition unlockSync_type (type : RWLockType) : M unit :=
  let* h := get_this in
  match count h type with
  | O => ret tt
  | S _ => _removeJobSync type >>> set_count type 0
  end.

Definition unlockSync (type : option RWLockType) : M unit :=
  match type with
  | None => unlockSync_type write >>> unlockSync_type read
  | Some t => unlockSync_type t
  end.

Definition remove (type : RWLockType) : M unit :=
  let* h := get_this in
  match count h type with
  | 0%nat => ret tt
  | 1%nat => unlock (Some type)
  | S n => set_count type n
  end.

Definition removeSync (type : RWLockType) : M unit :=
  let* h := get_this in
  match count h type with
  | 0%nat => ret tt
  | 1%nat => unlockSync (Some type)
  | S n => set_count type n
  end.

(** ** Reading the definitions as functions of the state *)

Definition alive (w : World) (p : Z) : bool := default false (active w p).

(** The record a path stands for: what [_fetchFile] returns. *)
Definition load (w : World) (path : string) : RWLockfileJSON :=
  match files w !! path with
  | Some (JSONText j) => _parseFile j
  | _ => empty_record
  end.

(** The file system after [writeFile f]. *)
Definition save (path : string) (f : RWLockfileJSON) (fs : gmap string FileContent)
    : gmap string FileContent :=
  if is_empty f then delete path fs
  else <[path := JSONText (_stringifyFile f)]> fs.

Definition persist (f : RWLockfileJSON) (s : State) : State :=
  mkState (this s)
    (set_files (world s) (save (file (this s)) f (files (world s)))).

Definition foreign (h : RWLockfile) (j : Job) : bool :=
  negb (String.eqb (uuid j) (h_uuid h)).

(** The processes whose reader jobs a pass purges: [check] misses process
    id 0, [checkSync] does not. *)
Definition dead_async (w : World) (p : Z) : bool := negb (alive w p) && negb (Z.eqb p 0).
Definition dead_sync (w : World) (p : Z) : bool := negb (alive w p).

Definition survivors (dead : Z → bool) (rs : list Job) : list Job :=
  List.filter (fun j => negb (dead (pid j))) rs.

(** One pass, as a function of the state. *)
Definition pass (dead : World → Z → bool) (rec : RWLockType → M Status)
    (type : RWLockType) (s : State) : option (Result Status * State) :=
  let p := file (this s) in
  if decide (p ∈ guarded (world s)) then Some (Throw GuardAcquisitionError, s)
  else
    match count (this s) write with
    | S _ => Some (Ok (open p), s)
    | O =>
      let f := load (world s) p in
      match writer f with
      | Some j =>
        if alive (world s) (pid j) then Some (Ok (write_lock j p), s)
        else rec type (persist (delete_writer f) s)
      | None =>
        match type, readers f with
        | write, _ :: _ =>
          if forallb (fun j => negb (dead (world s) (pid j))) (readers f) then
            if existsb (foreign (this s)) (readers f)
            then Some (Ok (read_lock p (readers f)), s)
            else Some (Ok (open p), s)
          else rec type
                 (persist (set_readers f (survivors (dead (world s)) (readers f))) s)
        | _, _ => Some (Ok (open p), s)
        end
      end
    end.

(** What [check] answers and the state it leaves. *)
Definition classify (dead : World → Z → bool) (type : RWLockType) (s : State)
    : Result Status * State :=
  let p := file (this s) in
  let w := world s in
  if decide (p ∈ guarded w) then (Throw GuardAcquisitionError, s)
  else
    match count (this s) write with
    | S _ => (Ok (open p), s)
    | O =>
      let f := load w p in
      match writer f with
      | Some j =>
        if alive w (pid j) then (Ok (write_lock j p), s)
        else
          let surv := survivors (dead w) (readers f) in
          match type with
          | read => (Ok (open p), persist (delete_writer f) s)
          | write =>
            (if existsb (foreign (this s)) surv
             then Ok (read_lock p surv) else Ok (open p),
             persist (set_readers (delete_writer f) surv) s)
          end
      | None =>
        match type with
        | read => (Ok (open p), s)
        | write =>
          let surv := survivors (dead w) (readers f) in
          (if existsb (foreign (this s)) surv
           then Ok (read_lock p surv) else Ok (open p),
           if forallb (fun j => negb (dead w (pid j))) (readers f) then s
           else persist (set_readers f surv) s)
        end
      end
    end.

(** The job [addJob] builds, and the record with it. *)
Definition new_job (s : State) (reason : option string) : Job :=
  {| reason := reason; pid := process_pid (this s); created := now (world s);
     uuid := h_uuid (this s) |}.

Definition with_job (type : RWLockType) (job : Job) (f : RWLockfileJSON) : RWLockfileJSON :=
  match type with
  | read => set_readers f (readers f ++ [job])
  | write => {| version := version f; writer := Some job; readers := readers f |}
  end.

(** The record [_removeJobFromFile] leaves. *)
Definition without_job (type : RWLockType) (h : RWLockfile) (f : RWLockfileJSON)
    : RWLockfileJSON :=
  match type with
  | read => set_readers f (List.filter (foreign h) (readers f))
  | write =>
    match writer f with
    | Some w => if String.eqb (uuid w) (h_uuid h) then delete_writer f else f
    | None => f
    end
  end.

Definition with_count_state (type : RWLockType) (n : nat) (s : State) : State :=
  mkState (with_count (this s) type n) (world s).

Definition bump (type : RWLockType) (s : State) : State :=
  with_count_state type (S (count (this s) type)) s.

(** [tryLock] and [_lockSync] as functions of the state. *)
Definition grant (dead : World → Z → bool) (type : RWLockType)
    (reason : option string) (inc : bool) (s : State) : option (Result unit * State) :=
  if decide (file (this s) ∈ guarded (world s)) then Some (Throw GuardAcquisitionError, s)
  else
    match count (this s) type with
    | S _ => Some (Ok tt, if inc then bump type s else s)
    | O =>
      match classify dead type s with
      | (Ok (open _), s1) =>
        let s2 := persist (with_job type (new_job s1 reason)
                             (load (world s1) (file (this s1)))) s1 in
        Some (Ok tt, if inc then bump type s2 else s2)
      | (Ok status, s1) => Some (Throw (RWLockfileError status), s1)
      | (Throw e, s1) => Some (Throw e, s1)
      end
    end.

(** [_removeJob] and [_removeJobSync] as functions of the state. *)
Definition release (type : RWLockType) (s : State) : option (Result unit * State) :=
  if decide (file (this s) ∈ guarded (world s)) then Some (Throw GuardAcquisitionError, s)
  else Some (Ok tt,
             persist (without_job type (this s) (load (world s) (file (this s)))) s).

Definition released (type : RWLockType) (s : State) : State :=
  with_count_state type 0
    (persist (without_job type (this s) (load (world s) (file (this s)))) s).

Fixpoint repeatM (n : nat) (m : M unit) : M unit :=
  match n with
  | O => ret tt
  | S n' => m >>> repeatM n' m
  end.

(** The state with the handle's record file gone. *)
Definition file_absent (s : State) : State :=
  mkState (this s)
    (set_files (world s) (delete (file (this s)) (files (world s)))).

(** [save(load(p))]. *)
Definition save_load : M unit := let* f := _fetchFile in writeFile f.
Definition save_load_sync : M unit := let* f := _fetchFileSync in writeFileSync f.

(** Whether the record holds a job of the handle for the lock type. *)
Definition holds_job (type : RWLockType) (h : RWLockfile) (f : RWLockfileJSON) : bool :=
  match type with
  | read => existsb (fun r => String.eqb (uuid r) (h_uuid h)) (readers f)
  | write =>
    match writer f with
    | Some w => String.eqb (uuid w) (h_uuid h)
    | None => false
    end
  end.

Definition record_of (s : State) : RWLockfileJSON := load (world s) (file (this s)).

(** The state [unlock(type)] leaves when the guard is free. *)
Definition unlocked (type : RWLockType) (s : State) : State :=
  match count (this s) type with
  | O => s
  | S _ => released type s
  end.

(** The state after an outgoing call is recorded, and after a sleep. *)
Definition logged (e : Event) (s : State) : State :=
  mkState (this s)
    (mkWorld (files (world s)) (active (world s)) (guarded (world s)) (now (world s))
       (events (world s) ++ [e])).

Definition slept (ms : Z) (t : Tick) (s : State) : State :=
  let w := world (logged (EvWait ms) s) in
  let w' := during t w in
  mkState (this s) (mkWorld (files w') (active w') (guarded w') (now w') (events w)).

Definition called (o : Once) (status : Status) (s : State) : State :=
  if ran o then s else logged (EvIfLocked (once_fn o) status) s.

Definition mark_ran (o : Once) : Once := if ran o then o else mkOnce (once_fn o) true.

Definition is_attempt (e : Event) : bool :=
  match e with EvTryLock _ => true | _ => false end.
Definition is_hook (e : Event) : bool :=
  match e with EvIfLocked _ _ => true | _ => false end.
Definition is_wait (e : Event) : bool :=
  match e with EvWait _ => true | _ => false end.

Definition attempts (evs : list Event) : nat := length (List.filter is_attempt evs).
Definition hook_calls (evs : list Event) : nat := length (List.filter is_hook evs).
Definition waits (evs : list Event) : nat := length (List.filter is_wait evs).

Definition is_ELOCK {A} (r : Result A) : bool :=
  match r with Throw (RWLockfileError _) => true | _ => false end.

(** Failed attempts of a finished run: each is followed by a sleep, except
    the last one when the run ends by throwing it. *)
Definition failures {A} (evs : list Event) (r : Result A) : nat :=
  (waits evs + if is_ELOCK r then 1 else 0)%nat.

(** ** Several handles on one file system *)

(** The handles that exist, by uuid, in the processes that run, and the world
    they share.  Each call of a handle is one step: the Exclusive Guard keeps
    the steps of different processes on one record apart. *)
Record System := mkSystem {
  handles : gmap string RWLockfile;
  outside : World;
}.

Inductive Call :=
| CallAdd (type : RWLockType) (opts : RWLockOptions)
| CallAddSync (type : RWLockType) (reason : option string)
| CallTryLock (type : RWLockType) (reason : option string) (inc : bool)
| CallRemove (type : RWLockType)
| CallRemoveSync (type : RWLockType)
| CallUnlock (type : option RWLockType)
| CallUnlockSync (type : option RWLockType)
| CallCheck (type : RWLockType)
| CallCheckSync (type : RWLockType).

(** A call of [add] that ends without sleeping; an attempt of a sleeping
    [add] is a [tryLock] that does not count. *)
Definition run_call (c : Call) : M unit :=
  match c with
  | CallAdd type opts => add [] type opts
  | CallAddSync type reason => addSync type reason
  | CallTryLock type reason inc => tryLock type reason inc
  | CallRemove type => remove type
  | CallRemoveSync type => removeSync type
  | CallUnlock type => unlock type
  | CallUnlockSync type => unlockSync type
  | CallCheck type => let* _ := check type in ret tt
  | CallCheckSync type => let* _ := checkSync type in ret tt
  end.

Inductive step (sys : System) : System → Prop :=
| step_call u h c r s' :
    handles sys !! u = Some h →
    run_call c (mkState h (outside sys)) = Some (r, s') →
    step sys (mkSystem (<[u := this s']> (handles sys)) (world s'))
| step_new u base options process_pid :
    handles sys !! u = None →
    step sys (mkSystem (<[u := constructor base options u process_pid]> (handles sys))
                (outside sys))
| step_exit p :
    step sys (mkSystem (filter (fun kv => process_pid kv.2 ≠ p) (handles sys))
                (outside sys))
| step_outside w :
    files w = files (outside sys) →
    step sys (mkSystem (handles sys) w).

(** The liveness oracle reports as running the process of every handle that
    holds write. *)
Definition sound (sys : System) : Prop :=
  ∀ u h, handles sys !! u = Some h → (0 < count h write)%nat →
         alive (outside sys) (process_pid h) = true.

(** A record in which the readers, if there is a writer, are the writer's
    own jobs. *)
Definition excl (f : RWLockfileJSON) : Prop :=
  ∀ w, writer f = Some w → Forall (fun j => uuid j = uuid w) (readers f).

Definition initial (sys : System) : Prop :=
  handles sys = ∅ ∧ ∀ path, excl (load (outside sys) path).

Inductive reachable : System → Prop :=
| reach_initial sys : initial sys → reachable sys
| reach_step sys sys' : reachable sys → step sys sys' → sound sys' → reachable sys'.

(** The writer of the record is the handle's job. *)
Definition owns (h : RWLockfile) (f : RWLockfileJSON) : Prop :=
  ∃ w, writer f = Some w ∧ uuid w = h_uuid h ∧ pid w = process_pid h.

(** What a classification that answers [open] has found. *)
Definition open_for (type : RWLockType) (s : State) : Prop :=
  (0 < count (this s) write)%nat
  ∨ (writer (record_of s) = None
     ∧ (type = write →
        Forall (fun j => uuid j = h_uuid (this s)) (readers (record_of s)))).

(** The state changes that the calls are made of. *)
Inductive effect : State → State → Prop :=
| eff_refl s : effect s s
| eff_trans s1 s2 s3 : effect s1 s2 → effect s2 s3 → effect s1 s3
| eff_log e s : effect s (logged e s)
| eff_classify dead type s :
    dead = dead_async ∨ dead = dead_sync →
    effect s (classify dead type s).2
| eff_job type reason s :
    open_for type s →
    effect s (persist (with_job type (new_job s reason) (record_of s)) s)
| eff_bump type s :
    (type = write → (0 < count (this s) write)%nat ∨ owns (this s) (record_of s)) →
    effect s (bump type s)
| eff_dec type n s :
    count (this s) type = S (S n) →
    effect s (with_count_state type (S n) s)
| eff_released type s : effect s (released type s).

Definition frame (s s' : State) : Prop :=
  base (this s') = base (this s)
  ∧ h_uuid (this s') = h_uuid (this s)
  ∧ process_pid (this s') = process_pid (this s)
  ∧ active (world s') = active (world s)
  ∧ ∀ path, path ≠ file (this s) → files (world s') !! path = files (world s) !! path.

Definition own_inv (s : State) : Prop :=
  excl (record_of s)
  ∧ ((0 < count (this s) write)%nat → owns (this s) (record_of s)).

Definition keep_inv (wg : Job) (s : State) : Prop :=
  writer (record_of s) = Some wg
  ∧ uuid wg ≠ h_uuid (this s)
  ∧ alive (world s) (pid wg) = true
  ∧ count (this s) write = 0%nat.

Definition system_inv (sys : System) : Prop :=
  (∀ u h, handles sys !! u = Some h → h_uuid h = u)
  ∧ (∀ path, excl (load (outside sys) path))
  ∧ (∀ u h, handles sys !! u = Some h → (0 < count h write)%nat →
       owns h (load (outside sys) (file h))).

(** ** Sample handles and worlds *)

Definition no_handle_options : RWLockfileOptions := mkHandleOptions None None None.
Definition no_options : RWLockOptions := mkLockOptions None None None None.

Definition handle_A : RWLockfile := constructor "/tmp/x" no_handle_options "A" 100.
Definition handle_B : RWLockfile := constructor "/tmp/x" no_handle_options "B" 200.

(** No files, every process running, no guard taken. *)
Definition quiet_world : World := mkWorld ∅ (fun _ => Some true) ∅ 0 [].

Definition job_A : Job := mkJob "A" 100 None 0.
Definition job_of (u : string) (p : Z) : Job := mkJob u p None 0.

Definition world_with (f : RWLockfileJSON) (oracle : Z → option bool) : World :=
  mkWorld {["/tmp/x.lock" := JSONText (_stringifyFile f)]} oracle ∅ 0 [].

(** Process 999 is gone and the oracle throws on it. *)
Definition oracle_999 (p : Z) : option bool :=
  if Z.eqb p 999 then None else Some true.

(** Process 0 is reported as not running. *)
Definition oracle_0 (p : Z) : option bool := Some (negb (Z.eqb p 0)).

(** Process 100 is reported as not running. *)
Definition oracle_100 (p : Z) : option bool := Some (negb (Z.eqb p 100)).

Definition immediately : Tick := mkTick 0 (fun w => w).


(** ** The exit handler and measures on traces *)

(** The handler registered with [process.once('exit', ...)]: for each handle
    of the registry [instances], [i.unlockSync()] inside a [try] whose
    [catch] is empty. *)
Fixpoint on_exit (instances : list RWLockfile) (w : World)
    : option (list RWLockfile * World) :=
  match instances with
  | [] => Some ([], w)
  | i :: rest =>
    match try_catch (unlockSync None) (fun err => ret tt) (mkState i w) with
    | Some (_, s') =>
      match on_exit rest (world s') with
      | Some (rest', w') => Some (this s' :: rest', w')
      | None => None
      end
    | None => None
    end
  end.


(** A stored record in which every job has its [created] field. *)
Definition dated (j : StoredJSON) : bool :=
  match s_writer j with
  | Some w => bool_decide (is_Some (s_created w))
  | None => true
  end
  && forallb (fun r => bool_decide (is_Some (s_created r))) (s_readers j).

(** A world whose record file of the handle holds something that does not
    parse. *)
Definition garbled (s : State) : State :=
  mkState (this s)
    (set_files (world s) (<[file (this s) := Garbage]> (files (world s)))).

(** No path holds a job in [w'] that it did not hold in [w]. *)
Definition shrinks (w w' : World) : Prop :=
  ∀ path,
    (∀ x, writer (load w' path) = Some x → writer (load w path) = Some x)
    ∧ (∀ j, In j (readers (load w' path)) → In j (readers (load w path))).

(** A handle with its counters at zero. *)
Definition idle (h : RWLockfile) : RWLockfile :=
  mkHandle (base h) (ifLocked h) (timeout h) (retryInterval h) (h_uuid h)
    (process_pid h) (mkCounts 0 0).

(** ** Lemmas on the record store *)

Lemma parse_stringify_job j : parse_addDate (stringify_addDate j) = j.
Proof. by destruct j. Qed.

Lemma parse_stringify f : _parseFile (_stringifyFile f) = f.
Proof.
  destruct f as [v w rs]. unfold _parseFile, _stringifyFile. simpl. f_equal.
  - destruct w as [j|]; simpl; [by rewrite parse_stringify_job | done].
  - rewrite map_map. induction rs as [|j rs IH]; simpl; [done|].
    by rewrite parse_stringify_job, IH.
Qed.

Lemma fetch_eq s : _fetchFile s = Some (Ok (load (world s) (file (this s))), s).
Proof.
  unfold _fetchFile, try_catch, bind, get_this, fs_readJSON, load, bind, get_world.
  destruct (files (world s) !! file (this s)) as [[j|]|]; reflexivity.
Qed.

Lemma writeFile_eq f s : writeFile f s = Some (Ok tt, persist f s).
Proof.
  unfold writeFile, persist, save, bind, get_this.
  destruct (is_empty f); reflexivity.
Qed.

Lemma delete_absent (fs : gmap string FileContent) path :
  fs !! path = None → delete path fs = fs.
Proof. apply delete_id. Qed.

Lemma writeFileSync_eq f s : writeFileSync f s = Some (Ok tt, persist f s).
Proof.
  unfold writeFileSync, persist, save, bind, get_this.
  destruct (is_empty f); [|reflexivity].
  unfold try_catch, fs_unlinkSync, bind, get_world.
  destruct (files (world s) !! file (this s)) eqn:E; simpl; [reflexivity|].
  unfold ret. rewrite delete_absent by done. by destruct s as [h []].
Qed.

Lemma load_persist f s :
  load (world (persist f s)) (file (this s)) = if is_empty f then empty_record else f.
Proof.
  unfold load, persist, save; simpl.
  destruct (is_empty f).
  - by rewrite lookup_delete_eq.
  - by rewrite lookup_insert_eq, parse_stringify.
Qed.

Lemma persist_persist f1 f2 s : persist f2 (persist f1 s) = persist f2 s.
Proof.
  unfold persist, save; simpl. f_equal. unfold set_files; simpl. f_equal.
  destruct (is_empty f1), (is_empty f2);
    by rewrite ?delete_delete_eq, ?insert_delete_eq, ?delete_insert_eq, ?insert_insert_eq.
Qed.

(** ** One pass of [check] and [checkSync] *)

Lemma isActive_eq p s : isActive p s = Some (Ok (alive (world s) p), s).
Proof.
  unfold isActive, alive, bind, get_world.
  by destruct (active (world s) p).
Qed.

Lemma mapM_liveness jobs s :
  mapM (fun j => let* a := isActive (pid j) in
                 ret (if negb a then Some (pid j) else None)) jobs s
  = Some (Ok (map (fun j => if negb (alive (world s) (pid j))
                            then Some (pid j) else None) jobs), s).
Proof.
  induction jobs as [|j jobs IH]; simpl; [done|].
  unfold bind at 1. unfold bind at 1. rewrite isActive_eq. unfold ret at 1.
  unfold bind at 1. by rewrite IH.
Qed.

Lemma inactive_async w jobs :
  omap truthy (map (fun j => if negb (alive w (pid j)) then Some (pid j) else None) jobs)
  = map pid (List.filter (fun j => dead_async w (pid j)) jobs).
Proof.
  induction jobs as [|j jobs IH]; [done|].
  cbn [map List.filter]. unfold dead_async at 1.
  destruct (alive w (pid j)); cbn -[omap].
  - by rewrite <- IH.
  - destruct (Z.eqb (pid j) 0) eqn:E; cbn -[omap]; rewrite <- IH;
      simpl; by rewrite E.
Qed.

Lemma inactive_sync w jobs :
  List.filter (fun p => negb (default false (active w p))) (map pid jobs)
  = map pid (List.filter (fun j => dead_sync w (pid j)) jobs).
Proof.
  induction jobs as [|j jobs IH]; simpl; [done|].
  unfold dead_sync at 1, alive.
  destruct (default false (active w (pid j))); simpl; by rewrite IH.
Qed.

Lemma includes_dead (dead : Z → bool) jobs j :
  In j jobs →
  includes (map pid (List.filter (fun j => dead (pid j)) jobs)) (pid j) = dead (pid j).
Proof.
  intros Hin. unfold includes.
  destruct (dead (pid j)) eqn:Hd.
  - apply existsb_exists. exists (pid j). split; [|apply Z.eqb_refl].
    apply in_map, filter_In. by split.
  - apply not_true_iff_false. intros [p [Hp Heq]]%existsb_exists.
    apply Z.eqb_eq in Heq. subst p.
    apply in_map_iff in Hp as [j' [Hpid [_ Hd']%filter_In]].
    rewrite Hpid in Hd'. congruence.
Qed.

Lemma purge_survivors (dead : Z → bool) jobs :
  List.filter
    (fun j => negb (includes (map pid (List.filter (fun j => dead (pid j)) jobs)) (pid j)))
    jobs
  = survivors dead jobs.
Proof.
  unfold survivors. apply filter_ext_in. intros j Hj. by rewrite includes_dead.
Qed.

Lemma none_dead (dead : Z → bool) jobs :
  map pid (List.filter (fun j => dead (pid j)) jobs) = []
  ↔ forallb (fun j => negb (dead (pid j))) jobs = true.
Proof.
  induction jobs as [|j jobs IH]; simpl; [done|].
  destruct (dead (pid j)); simpl; [split; discriminate | exact IH].
Qed.

Lemma statusFromFile_eq type f s :
  _statusFromFile type f s =
  Some (Ok (match count (this s) write with
            | S _ => open (file (this s))
            | O => match writer f with
                   | Some w => write_lock w (file (this s))
                   | None => match type, readers f with
                             | write, _ :: _ => read_lock (file (this s)) (readers f)
                             | _, _ => open (file (this s))
                             end
                   end
            end), s).
Proof.
  unfold _statusFromFile, bind, get_this.
  destruct type, (count (this s) write), (writer f), (readers f); reflexivity.
Qed.

Lemma check_body_pass rec type s :
  check_body rec type s = pass dead_async rec type s.
Proof.
  unfold check_body, pass, lockfile.
  destruct (decide (file (this s) ∈ guarded (world s))); [done|].
  unfold bind at 1. rewrite fetch_eq.
  unfold bind at 1. rewrite statusFromFile_eq.
  destruct (count (this s) write); [|done].
  destruct (writer (load (world s) (file (this s)))) as [j|] eqn:Hw.
  - unfold bind at 1. rewrite isActive_eq.
    destruct (alive (world s) (pid j)); simpl; [done|].
    unfold bind. by rewrite writeFile_eq.
  - destruct type; [done|].
    destruct (readers (load (world s) (file (this s)))) as [|j0 rs] eqn:Hr; [done|].
    rewrite <- Hr. unfold bind at 1. rewrite mapM_liveness. cbv beta zeta.
    rewrite inactive_async.
    destruct (forallb _ _) eqn:Hall.
    + apply none_dead in Hall. rewrite Hall. unfold bind, get_this, foreign.
      by destruct (existsb _ _).
    + destruct (map pid _) as [|p0 ps] eqn:Hin.
      { apply none_dead in Hin. congruence. }
      rewrite <- Hin, purge_survivors. unfold bind. by rewrite writeFile_eq.
Qed.

Lemma checkSync_body_pass rec type s :
  checkSync_body rec type s = pass dead_sync rec type s.
Proof.
  unfold checkSync_body, pass, lockfile, _fetchFileSync, isActiveSync.
  destruct (decide (file (this s) ∈ guarded (world s))); [done|].
  unfold bind at 1. rewrite fetch_eq.
  unfold bind at 1. rewrite statusFromFile_eq.
  destruct (count (this s) write); [|done].
  destruct (writer (load (world s) (file (this s)))) as [j|] eqn:Hw.
  - unfold bind at 1. rewrite isActive_eq.
    destruct (alive (world s) (pid j)); simpl; [done|].
    unfold bind. by rewrite writeFileSync_eq.
  - destruct type; [done|].
    destruct (readers (load (world s) (file (this s)))) as [|j0 rs] eqn:Hr; [done|].
    rewrite <- Hr. unfold bind at 1, get_world. cbv beta zeta.
    rewrite inactive_sync.
    destruct (forallb _ _) eqn:Hall.
    + apply none_dead in Hall. rewrite Hall. unfold bind, get_this, foreign.
      by destruct (existsb _ _).
    + destruct (map pid _) as [|p0 ps] eqn:Hin.
      { apply none_dead in Hin. congruence. }
      rewrite <- Hin, purge_survivors. unfold bind. by rewrite writeFileSync_eq.
Qed.

(** ** Three passes settle [check] *)

Section passes.

Variable dead : World → Z → bool.
Hypothesis dead_files : ∀ w fs p, dead (set_files w fs) p = dead w p.

Lemma survivors_all (d : Z → bool) rs :
  forallb (fun j => negb (d (pid j))) rs = true → survivors d rs = rs.
Proof.
  induction rs as [|j rs IH]; simpl; [done|].
  intros [Hj Hrs]%andb_true_iff. unfold survivors in *. simpl.
  rewrite Hj. by rewrite IH.
Qed.

Lemma survivors_alive (d : Z → bool) rs :
  forallb (fun j => negb (d (pid j))) (survivors d rs) = true.
Proof.
  apply forallb_forall. intros j Hj. unfold survivors in Hj.
  by apply filter_In in Hj as [_ Hj].
Qed.

Lemma pass_ext rec1 rec2 type s :
  (∀ t s', rec1 t s' = rec2 t s') → pass dead rec1 type s = pass dead rec2 type s.
Proof.
  intros Hrec. unfold pass. by rewrite !Hrec.
Qed.

Lemma pass_final rec type s :
  writer (load (world s) (file (this s))) = None →
  type = read ∨
    forallb (fun j => negb (dead (world s) (pid j)))
      (readers (load (world s) (file (this s)))) = true →
  pass dead rec type s = Some (classify dead type s).
Proof.
  intros Hw Hfin. unfold pass, classify. cbv zeta.
  destruct (decide _); [done|].
  destruct (count (this s) write); [|done].
  rewrite Hw. destruct type; [done|].
  destruct Hfin as [|Hall]; [done|]. rewrite Hall.
  rewrite survivors_all by done.
  destruct (readers _); [done|]. by destruct (existsb _ _).
Qed.

Lemma pass_twice rec type s :
  writer (load (world s) (file (this s))) = None →
  pass dead (pass dead rec) type s = Some (classify dead type s).
Proof.
  intros Hw.
  destruct type; [by apply pass_final; [|left]|].
  destruct (forallb (fun j => negb (dead (world s) (pid j)))
              (readers (load (world s) (file (this s))))) eqn:Hall;
    [by apply pass_final; [|right]|].
  unfold pass at 1, classify. cbv zeta.
  destruct (decide _) as [|Hg]; [done|].
  destruct (count (this s) write) eqn:Hc; [|done].
  rewrite Hw, Hall.
  destruct (readers (load (world s) (file (this s)))) as [|j0 rs] eqn:Hr; [done|].
  rewrite <- Hr.
  set (f := load (world s) (file (this s))).
  set (surv := survivors (dead (world s)) (readers f)).
  set (s' := persist (set_readers f surv) s).
  assert (Hl : load (world s') (file (this s')) =
               if is_empty (set_readers f surv) then empty_record
               else set_readers f surv) by exact (load_persist _ s).
  assert (Hrs : readers (load (world s') (file (this s'))) = surv).
  { assert (Hw' : writer f = None) by exact Hw.
    rewrite Hl. unfold is_empty. simpl. rewrite Hw'. by destruct surv. }
  assert (Hws : writer (load (world s') (file (this s'))) = None).
  { rewrite Hl. by destruct (is_empty _). }
  assert (Hd : dead (world s') = dead (world s)).
  { apply functional_extensionality. intros p. apply dead_files. }
  rewrite (pass_final rec write s' Hws).
  - unfold classify. cbv zeta. fold s'.
    change (this s') with (this s) in *.
    change (guarded (world s')) with (guarded (world s)).
    destruct (decide _); [done|]. rewrite Hc, Hws, Hrs, Hd.
    rewrite (survivors_all _ surv) by apply survivors_alive.
    unfold surv at 3. by rewrite survivors_alive.
  - right. rewrite Hrs, Hd. apply survivors_alive.
Qed.

Lemma pass_thrice rec type s :
  pass dead (pass dead (pass dead rec)) type s = Some (classify dead type s).
Proof.
  destruct (writer (load (world s) (file (this s)))) as [j|] eqn:Hw;
    [|by apply pass_twice].
  unfold pass at 1, classify. cbv zeta.
  destruct (decide _) as [|Hg]; [done|].
  destruct (count (this s) write) eqn:Hc; [|done].
  rewrite Hw. destruct (alive (world s) (pid j)); [done|].
  set (f := load (world s) (file (this s))).
  set (s' := persist (delete_writer f) s).
  assert (Hl : load (world s') (file (this s')) =
               if is_empty (delete_writer f) then empty_record
               else delete_writer f) by exact (load_persist _ s).
  assert (Hrs : readers (load (world s') (file (this s'))) = readers f).
  { rewrite Hl. unfold is_empty, delete_writer. simpl. by destruct (readers f). }
  assert (Hws : writer (load (world s') (file (this s'))) = None).
  { rewrite Hl. by destruct (is_empty _). }
  assert (Hd : dead (world s') = dead (world s)).
  { apply functional_extensionality. intros p. apply dead_files. }
  rewrite (pass_twice rec type s' Hws).
  unfold classify. cbv zeta. fold s'.
  change (this s') with (this s) in *.
  change (guarded (world s')) with (guarded (world s)).
  destruct (decide _); [done|]. rewrite Hc, Hws, Hrs, Hd.
  destruct type; [done|]. f_equal.
  destruct (forallb _ (readers f)) eqn:Hall.
  - rewrite survivors_all by done. unfold s'. by destruct f.
  - rewrite Hl. unfold s'. rewrite persist_persist.
    unfold is_empty, delete_writer. simpl. by destruct (readers f).
Qed.

End passes.

Lemma check_fuel_enough n type s :
  check_fuel (3 + n) type s = Some (classify dead_async type s).
Proof.
  rewrite <- (pass_thrice dead_async) with (rec := check_fuel n) by done.
  simpl. rewrite check_body_pass. apply pass_ext. intros t s'.
  rewrite check_body_pass. apply pass_ext. intros t' s''.
  apply check_body_pass.
Qed.

Lemma checkSync_fuel_enough n type s :
  checkSync_fuel (3 + n) type s = Some (classify dead_sync type s).
Proof.
  rewrite <- (pass_thrice dead_sync) with (rec := checkSync_fuel n) by done.
  simpl. rewrite checkSync_body_pass. apply pass_ext. intros t s'.
  rewrite checkSync_body_pass. apply pass_ext. intros t' s''.
  apply checkSync_body_pass.
Qed.

Lemma check_eq type s : check type s = Some (classify dead_async type s).
Proof. apply (check_fuel_enough 0). Qed.

Lemma checkSync_eq type s : checkSync type s = Some (classify dead_sync type s).
Proof. apply (checkSync_fuel_enough 0). Qed.

(** ** Granting and releasing *)

Lemma classify_this dead type s : this (classify dead type s).2 = this s.
Proof.
  unfold classify. cbv zeta.
  repeat (case_match; simpl; try done).
Qed.

Lemma classify_guarded dead type s :
  guarded (world (classify dead type s).2) = guarded (world s).
Proof.
  unfold classify. cbv zeta.
  repeat (case_match; simpl; try done).
Qed.

Lemma tryLock_eq type reason inc s :
  tryLock type reason inc s = grant dead_async type reason inc s.
Proof.
  unfold tryLock, grant, lockfile.
  destruct (decide _); [done|].
  unfold bind at 1, get_this.
  destruct (count (this s) type) eqn:Hc; [|by destruct inc].
  unfold bind at 1. rewrite check_eq.
  destruct (classify dead_async type s) as [[[p|j p|p js]|e] s1]; try done.
  unfold bind at 1. rewrite fetch_eq.
  unfold bind at 1, addJob, bind at 1, get_this, bind at 1, get_world.
  destruct type; unfold ret at 1, bind at 1; rewrite writeFile_eq; by destruct inc.
Qed.

Lemma lockSync_eq type reason s :
  _lockSync type reason s = grant dead_sync type reason true s.
Proof.
  unfold _lockSync, grant, lockfile, _fetchFileSync.
  destruct (decide _); [done|].
  unfold bind at 1, get_this.
  destruct (count (this s) type) eqn:Hc; [|done].
  unfold bind at 1. rewrite checkSync_eq.
  destruct (classify dead_sync type s) as [[[p|j p|p js]|e] s1]; try done.
  unfold bind at 1. rewrite fetch_eq.
  unfold bind at 1, addJob, bind at 1, get_this, bind at 1, get_world.
  destruct type; unfold ret at 1, bind at 1; by rewrite writeFileSync_eq.
Qed.

Lemma removeJob_eq type s : _removeJob type s = release type s.
Proof.
  unfold _removeJob, release, onceAtATime, lockfile.
  destruct (decide _); [done|].
  unfold bind at 1. rewrite fetch_eq.
  unfold bind at 1, _removeJobFromFile, bind at 1, get_this, without_job, foreign.
  destruct type; [unfold ret; by rewrite writeFile_eq|].
  destruct (writer _) as [w|]; [destruct (String.eqb _ _)|];
    unfold ret; by rewrite writeFile_eq.
Qed.

Lemma removeJobSync_eq type s : _removeJobSync type s = release type s.
Proof.
  unfold _removeJobSync, release, lockfile, _fetchFileSync.
  destruct (decide _); [done|].
  unfold bind at 1. rewrite fetch_eq.
  unfold bind at 1, _removeJobFromFile, bind at 1, get_this, without_job, foreign.
  destruct type; [unfold ret; by rewrite writeFileSync_eq|].
  destruct (writer _) as [w|]; [destruct (String.eqb _ _)|];
    unfold ret; by rewrite writeFileSync_eq.
Qed.

Lemma unlock_type_eq type s :
  unlock_type type s =
  match count (this s) type with
  | O => Some (Ok tt, s)
  | S _ =>
    if decide (file (this s) ∈ guarded (world s))
    then Some (Throw GuardAcquisitionError, s)
    else Some (Ok tt, released type s)
  end.
Proof.
  unfold unlock_type, bind at 1, get_this.
  destruct (count (this s) type); [done|].
  unfold bind. rewrite removeJob_eq. unfold release.
  by destruct (decide _).
Qed.

Lemma unlockSync_type_eq type s :
  unlockSync_type type s =
  match count (this s) type with
  | O => Some (Ok tt, s)
  | S _ =>
    if decide (file (this s) ∈ guarded (world s))
    then Some (Throw GuardAcquisitionError, s)
    else Some (Ok tt, released type s)
  end.
Proof.
  unfold unlockSync_type, bind at 1, get_this.
  destruct (count (this s) type); [done|].
  unfold bind. rewrite removeJobSync_eq. unfold release.
  by destruct (decide _).
Qed.

(** ** Self-ownership *)

(** C5: a handle whose own write counter is positive gets [open] from
    [check('read')], [check('write')] and their synchronous forms, whatever
    the record file and the liveness oracle hold, and the state is left as it
    was; [_statusFromFile] answers without looking at the record it is
    given. *)
Theorem check_self_ownership type s :
  (0 < count (this s) write)%nat →
  file (this s) ∉ guarded (world s) →
  check type s = Some (Ok (open (file (this s))), s)
  ∧ checkSync type s = Some (Ok (open (file (this s))), s)
  ∧ ∀ f, _statusFromFile type f s = Some (Ok (open (file (this s))), s).
Proof.
  intros Hc Hg. rewrite check_eq, checkSync_eq. unfold classify. cbv zeta.
  destruct (decide _); [done|].
  destruct (count (this s) write) eqn:E; [lia|].
  repeat split. intros f. rewrite statusFromFile_eq. by rewrite E.
Qed.

(** ** Stale writers *)

Lemma alive_false w p : active w p ≠ Some true → alive w p = false.
Proof. unfold alive. by destruct (active w p) as [[]|]. Qed.

Lemma writer_load_persist f s :
  writer f = None → writer (load (world (persist f s)) (file (this s))) = None.
Proof. intros Hw. rewrite load_persist. by destruct (is_empty f). Qed.

Lemma classify_dead_writer dead type s j :
  (∀ w fs p, dead (set_files w fs) p = dead w p) →
  file (this s) ∉ guarded (world s) →
  count (this s) write = 0%nat →
  writer (load (world s) (file (this s))) = Some j →
  alive (world s) (pid j) = false →
  classify dead type s
  = classify dead type (persist (delete_writer (load (world s) (file (this s)))) s).
Proof.
  intros Hd Hg Hc Hw Ha.
  pose proof (pass_thrice dead Hd (fun _ _ => None) type s) as H3.
  unfold pass at 1 in H3. cbv zeta in H3.
  destruct (decide _); [done|]. rewrite Hc, Hw, Ha in H3.
  rewrite pass_twice in H3; [congruence|done|].
  by apply (writer_load_persist (delete_writer _) s).
Qed.

Lemma no_foreign_survivor (d : Z → bool) h rs :
  Forall (fun r => uuid r = h_uuid h ∨ d (pid r) = true) rs →
  existsb (foreign h) (survivors d rs) = false.
Proof.
  intros Hall. apply not_true_iff_false. intros [r [Hr Hf]]%existsb_exists.
  unfold survivors in Hr. apply filter_In in Hr as [Hin Hd].
  rewrite Forall_forall in Hall. apply list_elem_of_In in Hin.
  destruct (Hall r Hin) as [Hu|Hdd].
  - unfold foreign in Hf. rewrite Hu, String.eqb_refl in Hf. done.
  - rewrite Hdd in Hd. done.
Qed.

(** C3: when the record names a writer whose process the oracle does not
    report as running (it says no, or it throws), [check] and [checkSync] of
    a handle that does not hold the write lock itself drop the writer entry,
    write the record back and classify again from the start: the answer is
    the answer on the rewritten record, the record left behind has no writer,
    and the answer is [open] when no reader stands in the way. *)
Theorem check_reclaims_stale_writer type s j :
  file (this s) ∉ guarded (world s) →
  count (this s) write = 0%nat →
  writer (load (world s) (file (this s))) = Some j →
  active (world s) (pid j) ≠ Some true →
  let f := load (world s) (file (this s)) in
  let s1 := persist (delete_writer f) s in
  (check type s = check type s1 ∧ checkSync type s = checkSync type s1)
  ∧ (∀ r s', check type s = Some (r, s') ∨ checkSync type s = Some (r, s') →
       writer (load (world s') (file (this s'))) = None)
  ∧ (type = read
     ∨ Forall (fun r => uuid r = h_uuid (this s)
                        ∨ (alive (world s) (pid r) = false ∧ pid r ≠ 0)) (readers f) →
     ∃ s', check type s = Some (Ok (open (file (this s))), s'))
  ∧ (type = read
     ∨ Forall (fun r => uuid r = h_uuid (this s)
                        ∨ alive (world s) (pid r) = false) (readers f) →
     ∃ s', checkSync type s = Some (Ok (open (file (this s))), s')).
Proof.
  intros Hg Hc Hw Ha%alive_false f s1.
  assert (Hcl : ∀ dead, (∀ w fs p, dead (set_files w fs) p = dead w p) →
            classify dead type s = classify dead type s1).
  { intros dead Hd. by apply classify_dead_writer with (j := j). }
  assert (Hshape : ∀ dead, classify dead type s =
            match type with
            | read => (Ok (open (file (this s))), s1)
            | write =>
              (if existsb (foreign (this s)) (survivors (dead (world s)) (readers f))
               then Ok (read_lock (file (this s))
                          (survivors (dead (world s)) (readers f)))
               else Ok (open (file (this s))),
               persist (set_readers (delete_writer f)
                          (survivors (dead (world s)) (readers f))) s)
            end).
  { intros dead. unfold classify. cbv zeta. destruct (decide _); [done|].
    rewrite Hc. fold f. unfold f at 1. rewrite Hw, Ha. by destruct type. }
  rewrite !check_eq, !checkSync_eq.
  split; [split; f_equal; by apply Hcl|].
  split.
  - intros r s' [H|H]; injection H as H; rewrite Hshape in H;
      destruct type; injection H as _ <-;
      by apply (writer_load_persist _ s).
  - split; intros Hfree; rewrite Hshape; destruct type; eauto;
      destruct Hfree as [|Hall]; try done;
      (rewrite no_foreign_survivor; [eauto|]);
      eapply Forall_impl; [exact Hall| |exact Hall|]; simpl; intros r [Hu|Hd];
        auto; right.
    + destruct Hd as [Hd H0]. unfold dead_async. rewrite Hd. simpl.
      by apply negb_true_iff, Z.eqb_neq.
    + unfold dead_sync. by rewrite Hd.
Qed.

(** ** The record store *)

Lemma persist_file_absent f s : persist f (file_absent s) = persist f s.
Proof.
  unfold persist, file_absent, save; simpl. f_equal. unfold set_files; simpl. f_equal.
  destruct (is_empty f); by rewrite ?delete_delete_eq, ?insert_delete_eq.
Qed.

Lemma load_file_absent s : load (world (file_absent s)) (file (this s)) = empty_record.
Proof. unfold load, file_absent; simpl. by rewrite lookup_delete_eq. Qed.

Lemma persist_load_persist f s :
  persist (load (world (persist f s)) (file (this s))) (persist f s) = persist f s.
Proof.
  rewrite load_persist, persist_persist.
  destruct (is_empty f) eqn:E; [|done].
  unfold persist, save. by rewrite E.
Qed.

(** C9: saving a record with no writer and no readers removes the record
    file, whether it is there or not, in both forms of [writeFile]; loading
    when the file is not there gives the empty record; so the empty record
    goes to "no file" and back, and loading then saving leaves no file and
    every file written by a save as it is, and never changes the writer and
    the readers that a load returns. *)
Theorem save_load_round_trip s v f :
  let e := {| version := v; writer := None; readers := [] |} in
  (writeFile e s = Some (Ok tt, file_absent s)
   ∧ writeFileSync e s = Some (Ok tt, file_absent s)
   ∧ writeFile e (file_absent s) = Some (Ok tt, file_absent s)
   ∧ writeFileSync e (file_absent s) = Some (Ok tt, file_absent s)
   ∧ files (world (file_absent s)) !! file (this s) = None)
  ∧ (_fetchFile (file_absent s) = Some (Ok empty_record, file_absent s)
     ∧ _fetchFileSync (file_absent s) = Some (Ok empty_record, file_absent s)
     ∧ is_empty empty_record = true)
  ∧ (save_load (file_absent s) = Some (Ok tt, file_absent s)
     ∧ save_load_sync (file_absent s) = Some (Ok tt, file_absent s)
     ∧ save_load (persist f s) = Some (Ok tt, persist f s)
     ∧ save_load_sync (persist f s) = Some (Ok tt, persist f s))
  ∧ (∃ s', save_load s = Some (Ok tt, s') ∧ save_load_sync s = Some (Ok tt, s')
       ∧ writer (load (world s') (file (this s')))
         = writer (load (world s) (file (this s)))
       ∧ readers (load (world s') (file (this s')))
         = readers (load (world s) (file (this s)))).
Proof.
  intros e.
  assert (He : ∀ s0, persist e s0 = file_absent s0) by done.
  assert (Hee : persist empty_record (file_absent s) = file_absent s).
  { unfold persist, file_absent, save; simpl. by rewrite delete_delete_eq. }
  split; [|split; [|split]].
  - rewrite !writeFile_eq, !writeFileSync_eq, persist_file_absent, (He s).
    repeat split. simpl. apply lookup_delete_eq.
  - unfold _fetchFileSync. rewrite fetch_eq.
    change (this (file_absent s)) with (this s). by rewrite load_file_absent.
  - unfold save_load, save_load_sync, _fetchFileSync, bind.
    rewrite !fetch_eq, !writeFile_eq, !writeFileSync_eq.
    change (this (file_absent s)) with (this s).
    change (this (persist f s)) with (this s).
    by rewrite load_file_absent, Hee, persist_load_persist.
  - exists (persist (load (world s) (file (this s))) s).
    unfold save_load, save_load_sync, _fetchFileSync, bind.
    rewrite !fetch_eq, !writeFile_eq, !writeFileSync_eq.
    change (this (persist _ s)) with (this s). rewrite load_persist.
    repeat split; destruct (load (world s) (file (this s))) as [v0 [w|] [|r rs]]; done.
Qed.

(** ** Forced unlock *)

Lemma record_of_persist f s :
  record_of (persist f s) = if is_empty f then empty_record else f.
Proof. exact (load_persist f s). Qed.

Lemma holds_job_without type h f : holds_job type h (without_job type h f) = false.
Proof.
  destruct type; simpl.
  - apply not_true_iff_false. intros [r [Hr Hu]]%existsb_exists.
    apply filter_In in Hr as [_ Hr]. unfold foreign in Hr. by rewrite Hu in Hr.
  - destruct (writer f) as [w|] eqn:Hw; [|by rewrite Hw].
    destruct (String.eqb (uuid w) (h_uuid h)) eqn:E; simpl; [done|].
    by rewrite Hw.
Qed.

Lemma record_of_with_count type n s :
  record_of (with_count_state type n s) = record_of s.
Proof. by destruct type. Qed.

Lemma holds_job_with_count t type n h f :
  holds_job t (with_count h type n) f = holds_job t h f.
Proof. by destruct type, t. Qed.

Lemma holds_job_released type s :
  holds_job type (this (released type s)) (record_of (released type s)) = false.
Proof.
  unfold released. rewrite record_of_with_count, record_of_persist.
  change (this (with_count_state type 0 ?x)) with (with_count (this s) type 0).
  rewrite holds_job_with_count.
  destruct (is_empty _); [by destruct type|apply holds_job_without].
Qed.

Lemma holds_job_released_other t type s :
  t ≠ type →
  holds_job t (this (released type s)) (record_of (released type s))
  = holds_job t (this s) (record_of s).
Proof.
  intros Hne. unfold released. rewrite record_of_with_count, record_of_persist.
  change (this (with_count_state type 0 ?x)) with (with_count (this s) type 0).
  rewrite holds_job_with_count. unfold record_of.
  set (f := load (world s) (file (this s))).
  destruct t, type; try done; simpl.
  - destruct (writer f) as [w|] eqn:Hw; [destruct (String.eqb (uuid w) _)|];
      unfold is_empty, delete_writer; simpl; rewrite ?Hw;
      destruct (readers f) eqn:Hr; simpl; by rewrite ?Hr.
  - unfold is_empty; simpl.
    destruct (writer f) as [w|] eqn:Hw; simpl; rewrite ?Hw; [done|].
    destruct (List.filter _ _); simpl; by rewrite ?Hw.
Qed.

Lemma count_released type s : count (this (released type s)) type = 0%nat.
Proof. by destruct type. Qed.

Lemma count_released_other t type s :
  t ≠ type → count (this (released type s)) t = count (this s) t.
Proof. by destruct type, t. Qed.

Lemma guarded_released type s :
  file (this (released type s)) ∈ guarded (world (released type s))
  ↔ file (this s) ∈ guarded (world s).
Proof. by destruct type. Qed.


Lemma unlock_type_unlocked type s :
  file (this s) ∉ guarded (world s) →
  unlock_type type s = Some (Ok tt, unlocked type s)
  ∧ unlockSync_type type s = Some (Ok tt, unlocked type s).
Proof.
  intros Hg. rewrite unlock_type_eq, unlockSync_type_eq. unfold unlocked.
  destruct (count (this s) type); [done|]. by destruct (decide _).
Qed.

Lemma unlocked_count type s : count (this (unlocked type s)) type = 0%nat.
Proof.
  unfold unlocked. destruct (count (this s) type) eqn:E; [done|apply count_released].
Qed.

Lemma unlocked_count_other t type s :
  t ≠ type → count (this (unlocked type s)) t = count (this s) t.
Proof.
  intros Hne. unfold unlocked.
  destruct (count (this s) type); [done|by apply count_released_other].
Qed.

Lemma unlocked_guarded type s :
  file (this s) ∉ guarded (world s) →
  file (this (unlocked type s)) ∉ guarded (world (unlocked type s)).
Proof.
  intros Hg. unfold unlocked.
  destruct (count (this s) type); [done|by rewrite guarded_released].
Qed.

Lemma unlocked_holds type s :
  count (this s) type ≠ 0%nat →
  holds_job type (this (unlocked type s)) (record_of (unlocked type s)) = false.
Proof.
  intros Hc. unfold unlocked.
  destruct (count (this s) type); [done|apply holds_job_released].
Qed.

Lemma unlocked_holds_other t type s :
  t ≠ type →
  holds_job t (this (unlocked type s)) (record_of (unlocked type s))
  = holds_job t (this s) (record_of s).
Proof.
  intros Hne. unfold unlocked.
  destruct (count (this s) type); [done|by apply holds_job_released_other].
Qed.

(** C2, as the code has it: [unlock(type)] and [unlockSync(type)] leave the
    handle's counter of that type at 0; when the counter was positive,
    whatever its value, the handle's job of that type is taken out of the
    record; when the counter was already 0 they return at once and the record
    stays as it is.  Without a type both read and write are unlocked. *)
Theorem unlock_forces_release type s :
  file (this s) ∉ guarded (world s) →
  (∃ s', unlock (Some type) s = Some (Ok tt, s')
     ∧ unlockSync (Some type) s = Some (Ok tt, s')
     ∧ count (this s') type = 0%nat
     ∧ (count (this s) type ≠ 0%nat →
        s' = released type s ∧ holds_job type (this s') (record_of s') = false)
     ∧ (count (this s) type = 0%nat → s' = s))
  ∧ (∀ m, m = unlock None ∨ m = unlockSync None →
       ∃ s', m s = Some (Ok tt, s')
         ∧ count (this s') read = 0%nat ∧ count (this s') write = 0%nat
         ∧ (count (this s) read ≠ 0%nat →
            holds_job read (this s') (record_of s') = false)
         ∧ (count (this s) write ≠ 0%nat →
            holds_job write (this s') (record_of s') = false)).
Proof.
  intros Hg. split.
  - exists (unlocked type s). simpl.
    destruct (unlock_type_unlocked type s Hg) as [-> ->].
    repeat split; [apply unlocked_count| | |].
    + unfold unlocked. by destruct (count (this s) type).
    + by apply unlocked_holds.
    + unfold unlocked. by intros ->.
  - intros m [->| ->]; unfold unlock, unlockSync, bind.
    + destruct (unlock_type_unlocked read s Hg) as [-> _].
      destruct (unlock_type_unlocked write (unlocked read s)) as [-> _];
        [by apply unlocked_guarded|].
      eexists; split_and!; [done| | | |].
      * rewrite unlocked_count_other by done. apply unlocked_count.
      * apply unlocked_count.
      * intros Hc. rewrite unlocked_holds_other by done. by apply unlocked_holds.
      * intros Hc. apply unlocked_holds. by rewrite unlocked_count_other.
    + destruct (unlock_type_unlocked write s Hg) as [_ ->].
      destruct (unlock_type_unlocked read (unlocked write s)) as [_ ->];
        [by apply unlocked_guarded|].
      eexists; split_and!; [done| | | |].
      * apply unlocked_count.
      * rewrite unlocked_count_other by done. apply unlocked_count.
      * intros Hc. apply unlocked_holds. by rewrite unlocked_count_other.
      * intros Hc. rewrite unlocked_holds_other by done. by apply unlocked_holds.
Qed.

(** ** Option defaults *)


(** ** The acquisition loop *)


Lemma classify_events dead type s :
  events (world (classify dead type s).2) = events (world s).
Proof.
  unfold classify. cbv zeta.
  repeat (case_match; simpl; try done).
Qed.

Lemma grant_events dead type reason inc s r s' :
  grant dead type reason inc s = Some (r, s') → events (world s') = events (world s).
Proof.
  unfold grant. pose proof (classify_events dead type s) as He.
  destruct (decide _); [by intros [= <- <-]|].
  destruct (count (this s) type); [|by destruct inc; intros [= <- <-]].
  destruct (classify dead type s) as [[[p|j p|p js]|e] s1]; simpl in He;
    try (by intros [= <- <-]).
  by destruct inc, type; intros [= <- <-].
Qed.

Lemma lock_loop_eq ticks type reason t r cb s :
  _lock_loop ticks type reason t r cb s =
  match tryLock type reason false (logged (EvTryLock type) s) with
  | None => None
  | Some (Ok _, s1) => Some (Ok tt, s1)
  | Some (Throw (RWLockfileError st), s1) =>
    if Qltb t 0 then Some (Throw (RWLockfileError st), called cb st s1)
    else
      match ticks with
      | [] => None
      | tk :: ticks' =>
        let i := random (r / 2) (r * 2) (draw tk) in
        _lock_loop ticks' type reason (t - inject_Z i) (r * 2) (mark_ran cb)
          (slept i tk (called cb st s1))
      end
  | Some (Throw e, s1) => Some (Throw e, s1)
  end.
Proof.
  destruct ticks as [|tk ticks']; simpl;
    unfold try_catch, bind at 1, log, bind at 1, get_world, put_world;
    fold (logged (EvTryLock type) s);
    destruct (tryLock type reason false (logged (EvTryLock type) s))
      as [[[[]|[st| | |]] s1]|]; try done;
    unfold bind at 1, call_once, called, mark_ran;
    destruct (ran cb); simpl; unfold bind, ret, log, bind, get_world, put_world;
    destruct (Qltb t 0); done.
Qed.

Lemma tryLock_events type reason inc s r s' :
  tryLock type reason inc s = Some (r, s') → events (world s') = events (world s).
Proof. rewrite tryLock_eq. apply grant_events. Qed.

(** ** Lemmas on doubles: powers of two *)

Lemma pow2_pos e : (0 < pow2 e)%Q.
Proof. by apply Qpower_0_lt. Qed.

Lemma pow2_add a b : (pow2 (a + b) == pow2 a * pow2 b)%Q.
Proof. by apply Qpower_plus. Qed.






Lemma scale_cancel x e : (x / pow2 e * pow2 e == x)%Q.
Proof. pose proof (pow2_pos e). field. lra. Qed.



Lemma scale_lt x y e : (x < y)%Q → (x / pow2 e < y / pow2 e)%Q.
Proof.
  intros H. pose proof (pow2_pos e) as Hp. unfold Qdiv.
  apply Qmult_lt_compat_r; [|done]. by apply Qinv_lt_0_compat.
Qed.

Lemma pow2_div a b : (pow2 a / pow2 b == pow2 (a - b))%Q.
Proof.
  pose proof (pow2_pos b). replace a with ((a - b) + b) at 1 by lia.
  rewrite pow2_add. field. lra.
Qed.

(** ** Lemmas on doubles: the binade of a positive number *)





(** ** Lemmas on doubles: the nearest integer *)












(** ** Lemmas on doubles: the nearest double *)





















(** ** The interval of a sleep *)



Lemma lock_eq ticks type opts s :
  _lock ticks type opts s =
  _lock_loop ticks type (opt_reason opts)
    (or_num (opt_timeout opts) (timeout (this s)))
    (or_num (opt_retryInterval opts) (retryInterval (this s)))
    (once (or_fn (opt_ifLocked opts) (ifLocked (this s)))) s.
Proof. reflexivity. Qed.


Lemma attempts_app a b : attempts (a ++ b) = (attempts a + attempts b)%nat.
Proof. unfold attempts. by rewrite List.filter_app, length_app. Qed.

Lemma waits_app a b : waits (a ++ b) = (waits a + waits b)%nat.
Proof. unfold waits. by rewrite List.filter_app, length_app. Qed.

Lemma hook_calls_app a b : hook_calls (a ++ b) = (hook_calls a + hook_calls b)%nat.
Proof. unfold hook_calls. by rewrite List.filter_app, length_app. Qed.

(** What a finished run of the loop adds to the trace: the first attempt,
    the callback if that attempt failed and the wrapper had not run yet, and
    then sleeps and attempts in turn, with no callback among them. *)
Lemma lock_loop_trace type reason ticks :
  ∀ t r cb s res s',
    _lock_loop ticks type reason t r cb s = Some (res, s') →
    ∃ hook rest,
      events (world s') = events (world s) ++ EvTryLock type :: hook ++ rest
      ∧ hook_calls rest = 0%nat
      ∧ attempts rest = waits rest
      ∧ match tryLock type reason false (logged (EvTryLock type) s) with
        | Some (Throw (RWLockfileError st), _) =>
          hook = (if ran cb then [] else [EvIfLocked (once_fn cb) st])
          ∧ (0 < failures rest res)%nat
        | _ => hook = [] ∧ rest = [] ∧ is_ELOCK res = false
        end.
Proof.
  induction ticks as [|tk ticks IH]; intros t r cb s res s' Hrun;
    rewrite lock_loop_eq in Hrun;
    destruct (tryLock type reason false (logged (EvTryLock type) s))
      as [[[[]|e] s1]|] eqn:Htry; try done;
    pose proof (tryLock_events _ _ _ _ _ _ Htry) as Hev; simpl in Hev.
  - injection Hrun as <- <-. exists [], []. by rewrite Hev.
  - destruct e as [st| | |]; try (injection Hrun as <- <-; exists [], []; by rewrite Hev).
    destruct (Qltb t 0); [|done]. injection Hrun as <- <-.
    exists (if ran cb then [] else [EvIfLocked (once_fn cb) st]), [].
    split_and!; try done.
    + unfold called. destruct (ran cb); simpl; rewrite Hev, <- ?app_assoc; done.
    + unfold failures. simpl. lia.
  - injection Hrun as <- <-. exists [], []. by rewrite Hev.
  - destruct e as [st| | |]; try (injection Hrun as <- <-; exists [], []; by rewrite Hev).
    destruct (Qltb t 0).
    + injection Hrun as <- <-.
      exists (if ran cb then [] else [EvIfLocked (once_fn cb) st]), [].
      split_and!; try done.
      * unfold called. destruct (ran cb); simpl; rewrite Hev, <- ?app_assoc; done.
      * unfold failures. simpl. lia.
    + cbv zeta in Hrun. apply IH in Hrun as (hook & rest & He & Hh & Ha & Hm).
      set (i := random (r / 2) (r * 2) (draw tk)) in *.
      assert (Hran : ran (mark_ran cb) = true) by (unfold mark_ran; by destruct (ran cb) eqn:E).
      assert (Hhook : hook_calls hook = 0%nat).
      { destruct (tryLock type reason false (logged _ (slept i tk _)))
          as [[[[]|[]] ?]|]; destruct Hm as [-> ?]; try done. by rewrite Hran. }
      exists (if ran cb then [] else [EvIfLocked (once_fn cb) st]),
             (EvWait i :: EvTryLock type :: hook ++ rest).
      split_and!.
      * rewrite He. unfold slept, called.
        destruct (ran cb); simpl; rewrite Hev; simpl; by rewrite <- !app_assoc.
      * change (EvWait i :: EvTryLock type :: hook ++ rest)
          with ([EvWait i; EvTryLock type] ++ hook ++ rest).
        rewrite !hook_calls_app, Hhook, Hh. done.
      * change (EvWait i :: EvTryLock type :: hook ++ rest)
          with ([EvWait i; EvTryLock type] ++ hook ++ rest).
        rewrite !attempts_app, !waits_app, Ha.
        assert (attempts hook = 0%nat ∧ waits hook = 0%nat) as [-> ->].
        { destruct (tryLock type reason false (logged _ (slept i tk _)))
            as [[[[]|[]] ?]|]; destruct Hm as [-> ?]; try done. by rewrite Hran. }
        done.
      * done.
      * unfold failures. simpl. lia.
Qed.

(** C7: in a finished run of [_lock] the callback ([opts.ifLocked], or the
    handle's when the options have none) is called once if some attempt
    failed as locked and not at all otherwise, however many retries there
    were; the call comes right after the first attempt, with the status that
    attempt failed on, and no later retry calls it again. *)
Theorem ifLocked_fires_once ticks type opts s res s' :
  _lock ticks type opts s = Some (res, s') →
  let fn := or_fn (opt_ifLocked opts) (ifLocked (this s)) in
  ∃ evs,
    events (world s') = events (world s) ++ evs
    ∧ attempts evs = S (waits evs)
    ∧ hook_calls evs = Nat.min 1 (failures evs res)
    ∧ (∀ st s1,
         tryLock type (opt_reason opts) false (logged (EvTryLock type) s)
           = Some (Throw (RWLockfileError st), s1) →
         ∃ rest, evs = EvTryLock type :: EvIfLocked fn st :: rest
                 ∧ hook_calls rest = 0%nat ∧ waits rest = waits evs).
Proof.
  rewrite lock_eq. intros Hrun fn.
  apply lock_loop_trace in Hrun as (hook & rest & He & Hh & Ha & Hm).
  exists (EvTryLock type :: hook ++ rest). split; [done|].
  change (EvTryLock type :: hook ++ rest) with ([EvTryLock type] ++ hook ++ rest).
  rewrite !attempts_app, !waits_app, !hook_calls_app, Ha, Hh.
  unfold failures in *. rewrite !waits_app.
  destruct (tryLock _ _ _ _) as [[[[]|[st| | |]] s1]|] eqn:Htry;
    destruct Hm as [-> Hm]; try (destruct Hm as [-> ->]);
    (split; [done|]);
    (split; [simpl in *; first [lia | destruct (_ + _)%nat; lia]|]); try done.
  intros st' s1' [= <- <-]. exists rest. by fold fn.
Qed.

(** ** Reentrancy *)

Lemma with_count_state_twice type n m s :
  with_count_state type n (with_count_state type m s) = with_count_state type n s.
Proof. by destruct type. Qed.

Lemma count_with_count_state type n s : count (this (with_count_state type n s)) type = n.
Proof. by destruct type. Qed.

Lemma bump_with_count_state type n s :
  bump type (with_count_state type n s) = with_count_state type (S n) s.
Proof. unfold bump. by rewrite count_with_count_state, with_count_state_twice. Qed.

Lemma add_held ticks type opts s n :
  count (this s) type = S n →
  add ticks type opts s = Some (Ok tt, bump type s).
Proof. intros Hc. unfold add, bind at 1, get_this. by rewrite Hc. Qed.

Lemma remove_held type s n :
  count (this s) type = S (S n) →
  remove type s = Some (Ok tt, with_count_state type (S n) s)
  ∧ removeSync type s = Some (Ok tt, with_count_state type (S n) s).
Proof.
  intros Hc. split; [unfold remove|unfold removeSync];
    unfold bind at 1, get_this; by rewrite Hc.
Qed.

Lemma remove_last type s :
  count (this s) type = 1%nat →
  file (this s) ∉ guarded (world s) →
  remove type s = Some (Ok tt, released type s)
  ∧ removeSync type s = Some (Ok tt, released type s).
Proof.
  intros Hc Hg. split; [unfold remove|unfold removeSync];
    unfold bind at 1, get_this; rewrite Hc; unfold unlock, unlockSync;
    rewrite ?unlock_type_eq, ?unlockSync_type_eq, Hc; by destruct (decide _).
Qed.

Lemma remove_idle type s :
  count (this s) type = 0%nat →
  remove type s = Some (Ok tt, s) ∧ removeSync type s = Some (Ok tt, s).
Proof.
  intros Hc. split; [unfold remove|unfold removeSync];
    unfold bind at 1, get_this; by rewrite Hc.
Qed.

Lemma repeat_add_held ticks type opts k :
  ∀ n s, repeatM k (add ticks type opts) (with_count_state type (S n) s)
         = Some (Ok tt, with_count_state type (S n + k) s).
Proof.
  induction k as [|k IH]; intros n s; simpl.
  - by rewrite Nat.add_0_r.
  - unfold bind. rewrite (add_held _ _ _ _ n) by apply count_with_count_state.
    rewrite bump_with_count_state, IH. do 3 f_equal. lia.
Qed.

Lemma repeat_remove_held type j :
  ∀ n s, repeatM j (remove type) (with_count_state type (S n + j) s)
         = Some (Ok tt, with_count_state type (S n) s).
Proof.
  induction j as [|j IH]; intros n s; cbn [repeatM].
  - by rewrite Nat.add_0_r.
  - unfold bind.
    destruct (remove_held type (with_count_state type (S n + S j) s) (n + j)) as [-> _].
    { rewrite count_with_count_state. lia. }
    rewrite with_count_state_twice.
    replace (S (n + j)) with (S n + j)%nat by lia. apply IH.
Qed.

Lemma repeatM_add a b (m : M unit) s :
  repeatM (a + b) m s = (repeatM a m >>> repeatM b m) s.
Proof.
  revert s. induction a as [|a IH]; intros s; cbn [repeatM Nat.add].
  - reflexivity.
  - unfold bind. destruct (m s) as [[[[]|e] s']|]; try reflexivity.
    rewrite IH. reflexivity.
Qed.

Lemma classify_logged e type s :
  classify dead_async type (logged e s)
  = ((classify dead_async type s).1, logged e (classify dead_async type s).2).
Proof.
  unfold classify. cbv zeta.
  change (this (logged e s)) with (this s).
  change (guarded (world (logged e s))) with (guarded (world s)).
  change (load (world (logged e s)) (file (this s))) with (load (world s) (file (this s))).
  change (dead_async (world (logged e s))) with (dead_async (world s)).
  change (alive (world (logged e s))) with (alive (world s)).
  repeat (case_match; simpl; try done).
Qed.

(** C4: on a handle whose read counter is 0 and for which the lock is open,
    [N] calls of [add('read')] followed by [N] calls of [remove('read')] touch
    the record twice: the first [add] appends one job and saves, the last
    [remove] filters the handle's jobs out and saves (or deletes the file);
    every call in between changes the read counter and nothing else. *)
Theorem reentrant_add_remove N ticks opts s p s1 :
  (1 ≤ N)%nat →
  count (this s) read = 0%nat →
  check read s = Some (Ok (open p), s1) →
  let s1' := logged (EvTryLock read) s1 in
  let job := new_job s1 (opt_reason opts) in
  let granted := persist (with_job read job (record_of s1)) s1' in
  (∀ k, (1 ≤ k ≤ N)%nat →
     repeatM k (add ticks read opts) s = Some (Ok tt, with_count_state read k granted))
  ∧ readers (record_of granted) = readers (record_of s1) ++ [job]
  ∧ (∀ j, (j < N)%nat →
       repeatM j (remove read) (with_count_state read N granted)
       = Some (Ok tt, with_count_state read (N - j) granted))
  ∧ repeatM N (remove read) (with_count_state read N granted)
    = Some (Ok tt, released read (with_count_state read 1 granted))
  ∧ count (this (released read (with_count_state read 1 granted))) read = 0%nat
  ∧ readers (record_of (released read (with_count_state read 1 granted)))
    = List.filter (foreign (this s)) (readers (record_of s1)).
Proof.
  intros HN Hc Hopen s1' job granted.
  rewrite check_eq in Hopen. injection Hopen as Hopen.
  assert (Hthis : this s1 = this s).
  { rewrite <- (classify_this dead_async read s). by rewrite Hopen. }
  assert (Hgs : guarded (world s1) = guarded (world s)).
  { rewrite <- (classify_guarded dead_async read s). by rewrite Hopen. }
  assert (Hg : file (this s) ∉ guarded (world s)).
  { intros Hin. unfold classify in Hopen. cbv zeta in Hopen.
    by destruct (decide _). }
  assert (Hfirst : add ticks read opts s = Some (Ok tt, with_count_state read 1 granted)).
  { unfold add, bind at 1, get_this. rewrite Hc. unfold bind at 1.
    rewrite lock_eq, lock_loop_eq, tryLock_eq. unfold grant.
    change (this (logged (EvTryLock read) s)) with (this s).
    change (guarded (world (logged (EvTryLock read) s))) with (guarded (world s)).
    destruct (decide _); [done|]. rewrite Hc, classify_logged, Hopen. simpl.
    unfold incr_count, bind, get_this, set_count, bind, get_this, put_this. simpl.
    assert (Hc1 : count_read (_count (this s1)) = 0%nat) by (rewrite Hthis; exact Hc).
    by rewrite Hc1. }
  assert (Hrec : record_of granted = with_job read job (record_of s1)).
  { unfold granted. rewrite record_of_persist. unfold is_empty. simpl.
    destruct (writer (record_of s1)); [done|]. by destruct (readers (record_of s1)). }
  assert (Hgg : ∀ n, file (this (with_count_state read n granted))
                     ∉ guarded (world (with_count_state read n granted))).
  { intros n. simpl. unfold file in *. simpl. rewrite Hthis, Hgs. exact Hg. }
  assert (Hlast : repeatM N (remove read) (with_count_state read N granted)
                  = Some (Ok tt, released read (with_count_state read 1 granted))).
  { destruct N as [|m]; [lia|]. replace (S m) with (m + 1)%nat at 1 by lia.
    rewrite repeatM_add. unfold bind at 1.
    replace (S m) with (1 + m)%nat by lia. rewrite repeat_remove_held.
    cbn [repeatM]. unfold bind.
    destruct (remove_last read (with_count_state read 1 granted)) as [-> _];
      [done|apply Hgg|done]. }
  split_and!.
  - intros k [Hk1 Hk2]. destruct k as [|k]; [lia|]. cbn [repeatM]. unfold bind.
    rewrite Hfirst, repeat_add_held. done.
  - by rewrite Hrec.
  - intros j Hj. replace N with (S (N - j - 1) + j)%nat at 1 by lia.
    rewrite repeat_remove_held. do 3 f_equal. lia.
  - exact Hlast.
  - apply count_released.
  - unfold released. rewrite record_of_with_count, record_of_persist.
    fold (record_of (with_count_state read 1 granted)).
    rewrite record_of_with_count, Hrec. simpl.
    assert (Hf : List.filter (foreign (with_count (this s1) read 1))
                   (readers (record_of s1) ++ [job])
                 = List.filter (foreign (this s)) (readers (record_of s1))).
    { assert (Hfor : ∀ a, foreign (with_count (this s1) read 1) a
                          = foreign (this s) a).
      { intros a. unfold foreign. by rewrite <- Hthis. }
      rewrite List.filter_app. cbn [List.filter]. rewrite Hfor.
      assert (foreign (this s) job = false) as ->.
      { unfold foreign, job, new_job. cbn [uuid]. by rewrite Hthis, String.eqb_refl. }
      rewrite app_nil_r. by apply filter_ext. }
    rewrite Hf. destruct (is_empty _) eqn:E; [|done].
    unfold is_empty in E. cbn [writer readers set_readers] in E.
    revert E. destruct (writer (record_of s1)); [done|].
    by destruct (List.filter (foreign (this s)) (readers (record_of s1))).
Qed.

(** ** Write requests over readers *)

Lemma survivors_async_sync w rs :
  Forall (fun j => pid j ≠ 0) rs →
  survivors (dead_async w) rs = survivors (dead_sync w) rs.
Proof.
  intros Hnz. unfold survivors. apply filter_ext_in. intros j Hj.
  rewrite Forall_forall in Hnz. apply list_elem_of_In, Hnz in Hj.
  unfold dead_async, dead_sync. apply Z.eqb_neq in Hj. rewrite Hj. simpl.
  by rewrite andb_true_r.
Qed.

Lemma forallb_async_sync w rs :
  Forall (fun j => pid j ≠ 0) rs →
  forallb (fun j => negb (dead_async w (pid j))) rs
  = forallb (fun j => negb (dead_sync w (pid j))) rs.
Proof.
  induction 1 as [|j rs Hj _ IH]; simpl; [done|].
  rewrite IH. unfold dead_async, dead_sync. apply Z.eqb_neq in Hj. rewrite Hj. simpl.
  by rewrite andb_true_r.
Qed.

(** On a record without writer, for a handle that does not hold the write
    lock: [checkSync('write')] purges the reader jobs of processes that are
    not running, answers [open] when every job that is left is the handle's
    own and [read_lock] with the jobs that are left otherwise; [check('write')]
    does the same on a record whose reader jobs all have a process id other
    than 0. *)
Lemma check_write_over_readers s :
  file (this s) ∉ guarded (world s) →
  count (this s) write = 0%nat →
  writer (record_of s) = None →
  let surv := survivors (dead_sync (world s)) (readers (record_of s)) in
  let answer := if existsb (foreign (this s)) surv
                then Ok (read_lock (file (this s)) surv)
                else Ok (open (file (this s))) in
  let after := if forallb (fun j => negb (dead_sync (world s) (pid j)))
                    (readers (record_of s))
               then s else persist (set_readers (record_of s) surv) s in
  checkSync write s = Some (answer, after)
  ∧ readers (record_of after) = surv
  ∧ (Forall (fun j => pid j ≠ 0) (readers (record_of s)) →
     check write s = Some (answer, after)).
Proof.
  intros Hg Hc Hw surv answer after.
  assert (Hcl : classify dead_sync write s = (answer, after)).
  { unfold classify. cbv zeta. destruct (decide _); [done|].
    rewrite Hc. fold (record_of s). by rewrite Hw. }
  split_and!.
  - by rewrite checkSync_eq, Hcl.
  - unfold after. destruct (forallb _ _) eqn:Hall.
    + unfold surv. by rewrite survivors_all.
    + rewrite record_of_persist. unfold is_empty. simpl. rewrite Hw.
      by destruct surv.
  - intros Hnz. rewrite check_eq, <- Hcl. unfold classify. cbv zeta.
    destruct (decide _); [done|]. rewrite Hc. fold (record_of s). rewrite Hw.
    by rewrite survivors_async_sync, forallb_async_sync.
Qed.

(** ** Mutual exclusion *)

Lemma existsb_foreign_false h rs :
  existsb (foreign h) rs = false → Forall (fun j => uuid j = h_uuid h) rs.
Proof.
  intros Hex. apply Forall_forall. intros j Hj%list_elem_of_In.
  destruct (String.eqb (uuid j) (h_uuid h)) eqn:E; [by apply String.eqb_eq|].
  assert (existsb (foreign h) rs = true); [|congruence].
  apply existsb_exists. exists j. split; [done|]. unfold foreign. by rewrite E.
Qed.

Lemma survivors_In d rs j : In j (survivors d rs) → In j rs.
Proof. unfold survivors. by intros [? _]%filter_In. Qed.

Lemma record_of_persist_job f s :
  is_empty f = false → record_of (persist f s) = f.
Proof. intros He. rewrite record_of_persist. by rewrite He. Qed.

Lemma classify_cases dead type s :
  (classify dead type s).2 = s
  ∨ (count (this s) write = 0%nat
     ∧ ∃ f', (classify dead type s).2 = persist f' s
             ∧ writer f' = None
             ∧ (∀ j, In j (readers f') → In j (readers (record_of s)))
             ∧ (∀ wg, writer (record_of s) = Some wg → alive (world s) (pid wg) = false)).
Proof.
  unfold classify, record_of. cbv zeta.
  destruct (decide _); [by left|].
  destruct (count (this s) write) eqn:Hc; [|by left].
  set (f := load (world s) (file (this s))).
  destruct (writer f) as [j|] eqn:Hw.
  - destruct (alive (world s) (pid j)) eqn:Ha; [by left|].
    right. split; [done|]. destruct type.
    + exists (delete_writer f). split_and!; try done. by intros wg [= <-].
    + eexists. split_and!; [done|done| |by intros wg [= <-]].
      intros j0 Hj0. by apply survivors_In in Hj0.
  - destruct type; [by left|].
    destruct (forallb _ _); [by left|]. right. split; [done|].
    eexists. split_and!; [done|done| |done].
    intros j0 Hj0. by apply survivors_In in Hj0.
Qed.

Lemma classify_open dead type s p s1 :
  classify dead type s = (Ok (open p), s1) → open_for type s1.
Proof.
  unfold classify, open_for. cbv zeta.
  destruct (decide _); [done|].
  destruct (count (this s) write) eqn:Hc; [|intros [= _ <-]; left; lia].
  set (f := load (world s) (file (this s))).
  assert (Hpers : ∀ rs g, writer g = None → readers g = rs →
            existsb (foreign (this s)) rs = false →
            writer (record_of (persist g s)) = None
            ∧ (type = write →
               Forall (fun j => uuid j = h_uuid (this (persist g s)))
                 (readers (record_of (persist g s))))).
  { intros rs g Hg Hrs Hex. rewrite record_of_persist.
    destruct (is_empty g); [done|]. split; [done|]. intros _. rewrite Hrs.
    by apply existsb_foreign_false. }
  destruct (writer f) as [j|] eqn:Hw.
  - destruct (alive (world s) (pid j)); [done|].
    destruct type.
    + intros [= _ <-]. right. split; [by apply (writer_load_persist _ s)|done].
    + destruct (existsb _ _) eqn:Hex; [done|]. intros [= _ <-]. right.
      by eapply Hpers.
  - destruct type.
    + intros [= _ <-]. right. by split.
    + destruct (existsb _ _) eqn:Hex; [done|]. intros [= _ <-]. right.
      destruct (forallb _ _) eqn:Hall; [|by eapply Hpers].
      split; [done|]. intros _. rewrite survivors_all in Hex by done.
      by apply existsb_foreign_false.
Qed.

Lemma job_owns reason s :
  owns (this s) (record_of (persist (with_job write (new_job s reason) (record_of s)) s)).
Proof.
  rewrite record_of_persist_job by done.
  by exists (new_job s reason).
Qed.

Lemma owns_with_count type n h f : owns (with_count h type n) f ↔ owns h f.
Proof. by destruct type. Qed.

Lemma grant_effect dead type reason inc s r s' :
  dead = dead_async ∨ dead = dead_sync →
  grant dead type reason inc s = Some (r, s') →
  effect s s'
  ∧ (r = Ok tt → type = write → count (this s) write = 0%nat →
     owns (this s') (record_of s')).
Proof.
  intros Hd. unfold grant.
  destruct (decide _); [intros [= <- <-]; split; [apply eff_refl|done]|].
  destruct (count (this s) type) eqn:Hc.
  - pose proof (eff_classify dead type s Hd) as Hcl.
    pose proof (classify_open dead type s) as Hop.
    destruct (classify dead type s) as [[[p|j p|p js]|e] s1]; simpl in Hcl;
      try (intros [= <- <-]; split; [done|done]).
    specialize (Hop p s1 eq_refl).
    set (s2 := persist _ s1).
    assert (He2 : effect s s2).
    { eapply eff_trans; [exact Hcl|]. by apply eff_job. }
    assert (Ho2 : type = write → owns (this s2) (record_of s2)).
    { intros ->. exact (job_owns reason s1). }
    destruct inc; intros [= <- <-]; split; try done.
    + eapply eff_trans; [exact He2|]. apply eff_bump. intros Ht. right. auto.
    + intros _ Ht _. unfold bump, with_count_state. simpl.
      rewrite owns_with_count. fold (record_of s2). auto.
    + intros _ Ht _. auto.
  - destruct inc; intros [= <- <-].
    + split; [apply eff_bump; intros ->; left; lia|]. intros _ -> Hz. lia.
    + split; [apply eff_refl|]. intros _ -> Hz. lia.
Qed.

Lemma incr_count_eq type s : incr_count type s = Some (Ok tt, bump type s).
Proof. reflexivity. Qed.

Lemma call_effect c s r s' : run_call c s = Some (r, s') → effect s s'.
Proof.
  destruct c as [type opts|type reason|type reason inc|type|type|type|type|type|type];
    simpl.
  - unfold add, bind at 1, get_this.
    destruct (count (this s) type) eqn:Hc.
    + unfold bind at 1. rewrite lock_eq, lock_loop_eq, tryLock_eq.
      destruct (grant _ _ _ _ _) as [[[[]|e] s1]|] eqn:Hgr; [| |done].
      * apply grant_effect in Hgr as [He Ho]; [|by left].
        rewrite incr_count_eq. intros [= <- <-].
        eapply eff_trans; [apply eff_log|]. eapply eff_trans; [exact He|].
        apply eff_bump. intros ->. right. by apply Ho.
      * apply grant_effect in Hgr as [He _]; [|by left].
        assert (effect s s1) by (eapply eff_trans; [apply eff_log|exact He]).
        destruct e as [st| | |]; try by intros [= <- <-].
        destruct (Qltb _ _); [|done]. intros [= <- <-].
        unfold called. destruct (ran _); [done|].
        eapply eff_trans; [eassumption|apply eff_log].
    + unfold bind at 1. simpl. rewrite incr_count_eq. intros [= <- <-].
      apply eff_bump. intros ->. left. lia.
  - unfold addSync. rewrite lockSync_eq. intros Hgr.
    by apply grant_effect in Hgr as [He _]; [|right].
  - rewrite tryLock_eq. intros Hgr.
    by apply grant_effect in Hgr as [He _]; [|left].
  - unfold remove, bind at 1, get_this.
    destruct (count (this s) type) as [|[|n]] eqn:Hc.
    + intros [= <- <-]. apply eff_refl.
    + unfold unlock. rewrite unlock_type_eq, Hc.
      destruct (decide _); intros [= <- <-]; [apply eff_refl|apply eff_released].
    + intros [= <- <-]. by apply (eff_dec type n).
  - unfold removeSync, bind at 1, get_this.
    destruct (count (this s) type) as [|[|n]] eqn:Hc.
    + intros [= <- <-]. apply eff_refl.
    + unfold unlockSync. rewrite unlockSync_type_eq, Hc.
      destruct (decide _); intros [= <- <-]; [apply eff_refl|apply eff_released].
    + intros [= <- <-]. by apply (eff_dec type n).
  - assert (Hone : ∀ t s0 r0 s0', unlock_type t s0 = Some (r0, s0') → effect s0 s0').
    { intros t s0 r0 s0'. rewrite unlock_type_eq.
      destruct (count (this s0) t); [intros [= <- <-]; apply eff_refl|].
      destruct (decide _); intros [= <- <-]; [apply eff_refl|apply eff_released]. }
    destruct type as [t|]; simpl; [apply Hone|].
    unfold bind. destruct (unlock_type read s) as [[[[]|e] s1]|] eqn:H1; [| |done].
    + intros H2. eapply eff_trans; eapply Hone; eassumption.
    + intros [= <- <-]. eapply Hone; eassumption.
  - assert (Hone : ∀ t s0 r0 s0', unlockSync_type t s0 = Some (r0, s0') → effect s0 s0').
    { intros t s0 r0 s0'. rewrite unlockSync_type_eq.
      destruct (count (this s0) t); [intros [= <- <-]; apply eff_refl|].
      destruct (decide _); intros [= <- <-]; [apply eff_refl|apply eff_released]. }
    destruct type as [t|]; simpl; [apply Hone|].
    unfold bind. destruct (unlockSync_type write s) as [[[[]|e] s1]|] eqn:H1; [| |done].
    + intros H2. eapply eff_trans; eapply Hone; eassumption.
    + intros [= <- <-]. eapply Hone; eassumption.
  - unfold bind. rewrite check_eq.
    pose proof (eff_classify dead_async type s (or_introl eq_refl)) as He.
    destruct (classify dead_async type s) as [[st|e] s1]; by intros [= <- <-].
  - unfold bind. rewrite checkSync_eq.
    pose proof (eff_classify dead_sync type s (or_intror eq_refl)) as He.
    destruct (classify dead_sync type s) as [[st|e] s1]; by intros [= <- <-].
Qed.

Lemma frame_refl s : frame s s.
Proof. by repeat split. Qed.

Lemma file_base h h' : base h' = base h → file h' = file h.
Proof. unfold file. by intros ->. Qed.

Lemma frame_trans s1 s2 s3 : frame s1 s2 → frame s2 s3 → frame s1 s3.
Proof.
  intros (Hb & Hu & Hp & Ha & Hf) (Hb' & Hu' & Hp' & Ha' & Hf').
  split_and!; try congruence.
  intros path Hne. rewrite Hf', Hf; [done|done|].
  by rewrite (file_base _ _ Hb).
Qed.

Lemma frame_persist f s : frame s (persist f s).
Proof.
  split_and!; try done. intros path Hne. unfold persist, save. simpl.
  destruct (is_empty f); [by rewrite lookup_delete_ne|by rewrite lookup_insert_ne].
Qed.

Lemma frame_with_count type n s : frame s (with_count_state type n s).
Proof. by destruct type. Qed.

Lemma effect_frame s s' : effect s s' → frame s s'.
Proof.
  induction 1 as [s|s1 s2 s3 _ IH1 _ IH2|e s|dead type s Hd|type reason s Ho
                  |type s Hc|type n s Hc|type s].
  - apply frame_refl.
  - by eapply frame_trans.
  - by repeat split.
  - destruct (classify_cases dead type s) as [->|(_ & f' & -> & _)];
      [apply frame_refl|apply frame_persist].
  - apply frame_persist.
  - apply frame_with_count.
  - apply frame_with_count.
  - eapply frame_trans; [apply frame_persist|apply frame_with_count].
Qed.

Lemma excl_shrink f f' :
  excl f →
  (∀ w, writer f' = Some w → writer f = Some w) →
  (∀ j, In j (readers f') → In j (readers f)) →
  excl f'.
Proof.
  intros He Hw Hr w Hw'. specialize (He w (Hw w Hw')).
  rewrite Forall_forall in *. intros j Hj%list_elem_of_In.
  by apply He, list_elem_of_In, Hr.
Qed.

Lemma excl_empty : excl empty_record.
Proof. by intros w. Qed.

Lemma excl_persist f s : excl f → excl (record_of (persist f s)).
Proof.
  intros He. rewrite record_of_persist. destruct (is_empty f); [apply excl_empty|done].
Qed.

Lemma without_job_shrink type h f :
  (∀ w, writer (without_job type h f) = Some w → writer f = Some w)
  ∧ (∀ j, In j (readers (without_job type h f)) → In j (readers f)).
Proof.
  destruct type; simpl.
  - split; [done|]. by intros j [? _]%filter_In.
  - destruct (writer f) as [w|] eqn:Hw; [destruct (String.eqb _ _)|];
      simpl; by rewrite ?Hw.
Qed.

Lemma effect_own s s' : effect s s' → own_inv s → own_inv s'.
Proof.
  induction 1 as [s|s1 s2 s3 _ IH1 _ IH2|e s|dead type s Hd|type reason s Ho
                  |type s Hc|type n s Hc|type s]; intros [Hex Hown].
  - done.
  - by apply IH2, IH1.
  - done.
  - destruct (classify_cases dead type s) as [->|(Hz & f' & -> & Hw & Hr & _)];
      [done|].
    split.
    + apply excl_persist. intros w. by rewrite Hw.
    + change (this (persist f' s)) with (this s). lia.
  - set (f' := with_job type (new_job s reason) (record_of s)).
    assert (Hne : is_empty f' = false).
    { unfold f', is_empty. destruct type; simpl; [|done].
      destruct (writer (record_of s)); [done|]. by destruct (readers (record_of s)). }
    unfold own_inv. rewrite record_of_persist_job by done.
    change (this (persist f' s)) with (this s).
    destruct Ho as [Hpos|[Hnw Hall]].
    + destruct (Hown Hpos) as (w & Hw & Hu & Hp). specialize (Hex w Hw).
      destruct type; simpl.
      * split; [|by exists w]. intros w'. simpl. rewrite Hw. intros [= <-].
        apply Forall_app. split; [done|]. by apply Forall_singleton.
      * split; [|by eexists]. intros w'. simpl. intros [= <-]. simpl.
        eapply Forall_impl; [exact Hex|]. simpl. intros j ->. done.
    + destruct type; simpl.
      * split; [|intros Hpos]. { intros w'. simpl. by rewrite Hnw. }
        destruct (Hown Hpos) as (w & Hw & _). congruence.
      * split; [|by eexists]. intros w'. simpl. intros [= <-]. by apply Hall.
  - split; [done|]. unfold bump, with_count_state. simpl.
    rewrite owns_with_count. fold (record_of s). intros Hpos.
    destruct type; [by apply Hown|]. destruct Hc as [Hc|Hc]; auto.
  - split; [done|]. unfold with_count_state. simpl.
    rewrite owns_with_count. fold (record_of s). intros Hpos.
    apply Hown. destruct type; simpl in *; lia.
  - unfold own_inv, released. rewrite record_of_with_count.
    destruct (without_job_shrink type (this s) (record_of s)) as [Hw Hr].
    split; [apply excl_persist; by eapply excl_shrink|].
    unfold with_count_state. simpl. rewrite owns_with_count.
    fold (record_of (persist (without_job type (this s) (record_of s)) s)).
    destruct type; simpl; [|lia]. intros Hpos.
    destruct (Hown Hpos) as (w & Hww & Hu & Hp).
    rewrite record_of_persist_job; [by exists w|].
    unfold is_empty. simpl. unfold record_of in Hww. by rewrite Hww.
Qed.

Lemma effect_keep wg s s' : effect s s' → keep_inv wg s → keep_inv wg s'.
Proof.
  induction 1 as [s|s1 s2 s3 _ IH1 _ IH2|e s|dead type s Hd|type reason s Ho
                  |type s Hc|type n s Hc|type s]; intros (Hw & Hu & Ha & Hz).
  - done.
  - by apply IH2, IH1.
  - done.
  - destruct (classify_cases dead type s) as [->|(_ & f' & _ & _ & _ & Hdead)];
      [done|]. rewrite (Hdead wg Hw) in Ha. done.
  - destruct Ho as [Hpos|[Hnw _]]; [lia|congruence].
  - destruct type; [done|]. destruct Hc as [Hc|(w & Hw' & Hu' & _)]; [done|lia|].
    congruence.
  - destruct type; [done|]. simpl in *. lia.
  - unfold keep_inv, released. rewrite record_of_with_count.
    assert (Hrec : writer (record_of (persist (without_job type (this s) (record_of s)) s))
                   = Some wg).
    { rewrite record_of_persist_job.
      - destruct type; simpl; [done|]. rewrite Hw.
        destruct (String.eqb (uuid wg) (h_uuid (this s))) eqn:E; [|done].
        by apply String.eqb_eq in E.
      - unfold is_empty. destruct type; simpl; [by rewrite Hw|]. rewrite Hw.
        destruct (String.eqb (uuid wg) (h_uuid (this s))) eqn:E;
          [by apply String.eqb_eq in E|]. by rewrite Hw. }
    split_and!; [done|by destruct type|done|by destruct type].
Qed.

Lemma load_files w w' path :
  files w' !! path = files w !! path → load w' path = load w path.
Proof. unfold load. by intros ->. Qed.

Lemma step_inv sys sys' :
  system_inv sys → sound sys → step sys sys' → system_inv sys'.
Proof.
  intros (Hkeys & Hexcl & Hown) Hsound
    [u h c r s' Hlook Hrun|u b o p Hfresh|p|w Hfiles].
  - set (s := mkState h (outside sys)) in *.
    pose proof (call_effect c s r s' Hrun) as Heff.
    pose proof (effect_frame s s' Heff) as (Hb & Hu & Hp & Ha & Hf).
    assert (Hfile : file (this s') = file h) by by apply file_base.
    assert (Hs : own_inv s).
    { split; [apply Hexcl|]. intros Hpos. by apply (Hown u). }
    pose proof (effect_own s s' Heff Hs) as [Hex' Hown'].
    split_and!; simpl.
    + intros u' g. rewrite lookup_insert. case_decide as Hdec.
      * intros [= <-]. rewrite Hu. simpl. subst. by apply Hkeys.
      * apply Hkeys.
    + intros path. destruct (decide (path = file h)) as [->|Hne].
      * unfold record_of in Hex'. by rewrite Hfile in Hex'.
      * rewrite (load_files (outside sys)); [apply Hexcl|]. by apply Hf.
    + intros u' g. rewrite lookup_insert. case_decide as Hdec.
      * intros [= <-]. apply Hown'.
      * intros Hg Hpos. destruct (Hown u' g Hg Hpos) as (wg & Hw & Hwu & Hwp).
        destruct (decide (file g = file h)) as [Heq|Hne].
        -- assert (Hk : keep_inv wg s).
           { split_and!; simpl.
             - unfold record_of. simpl. by rewrite <- Heq.
             - rewrite Hwu, (Hkeys u' g Hg), (Hkeys u h Hlook). congruence.
             - rewrite Hwp. by apply (Hsound u' g).
             - destruct (count h write) eqn:Hc; [done|].
               destruct (Hown u h Hlook) as (w' & Hw' & Hu' & _); [lia|].
               rewrite Heq in Hw. rewrite Hw in Hw'. injection Hw' as <-.
               rewrite Hwu, (Hkeys u' g Hg), (Hkeys u h Hlook) in Hu'. congruence. }
           apply (effect_keep wg s s' Heff) in Hk as (Hw' & _).
           exists wg. split_and!; try done.
           unfold record_of in Hw'. by rewrite Hfile, <- Heq in Hw'.
        -- exists wg. split_and!; try done.
           rewrite (load_files (outside sys)); [done|]. by apply Hf.
  - split_and!; simpl.
    + intros u' g. rewrite lookup_insert. case_decide as Hdec.
      * by intros [= <-].
      * apply Hkeys.
    + done.
    + intros u' g. rewrite lookup_insert. case_decide as Hdec.
      * intros [= <-]. simpl. lia.
      * apply Hown.
  - split_and!; simpl.
    + intros u' g [Hg _]%map_lookup_filter_Some. by apply (Hkeys u' g).
    + done.
    + intros u' g [Hg _]%map_lookup_filter_Some. by apply (Hown u' g).
  - split_and!; simpl.
    + done.
    + intros path. rewrite (load_files (outside sys)); [apply Hexcl|]. by rewrite Hfiles.
    + intros u' g Hg Hpos.
      rewrite (load_files (outside sys)); [by apply (Hown u')|]. by rewrite Hfiles.
Qed.

Lemma reachable_inv sys : reachable sys → system_inv sys ∧ sound sys.
Proof.
  induction 1 as [sys [Hh Hex]|sys sys' _ [IH1 IH2] Hstep Hsound].
  - split; [split_and!|]; try done.
    + intros u h. by rewrite Hh, lookup_empty.
    + intros u h. by rewrite Hh, lookup_empty.
    + intros u h. by rewrite Hh, lookup_empty.
  - split; [by eapply step_inv|done].
Qed.

(** C1, as the code has it: while the liveness oracle reports as running
    the process of every handle that holds write, each record reached from
    records that satisfy it, through calls of add, tryLock, remove, unlock
    and check by any handles, through new handles, process exits and changes
    of the oracle, holds at most one writer job, and the reader jobs next to
    a writer job all carry the writer's uuid: a handle may hold read and
    write together, and no other handle's job stands next to a writer. *)
Theorem mutual_exclusion sys path :
  reachable sys →
  let f := load (outside sys) path in
  (length (option_list (writer f)) ≤ 1)%nat
  ∧ ∀ w, writer f = Some w → Forall (fun j => uuid j = uuid w) (readers f).
Proof.
  intros [(_ & Hexcl & _) _]%reachable_inv f. split.
  - destruct (writer f); simpl; lia.
  - apply Hexcl.
Qed.

(** ** Further properties: the stored form of a record *)

Lemma stringify_parse_job r :
  is_Some (s_created r) → stringify_addDate (parse_addDate r) = r.
Proof. destruct r as [u p rs [d|]]; [done|]. by intros [? ?]. Qed.

(** X1: writing a record and reading it back gives the record; reading a
    stored record in which every job has its [created] date and writing it
    back gives the stored record. *)
Theorem stored_record_round_trip f j :
  dated j = true →
  _parseFile (_stringifyFile f) = f ∧ _stringifyFile (_parseFile j) = j.
Proof.
  intros [Hw Hr]%andb_true_iff. split; [apply parse_stringify|].
  destruct j as [ver w rs]. unfold _stringifyFile, _parseFile. simpl in *. f_equal.
  - destruct w as [w|]; [|done]. simpl. apply bool_decide_eq_true in Hw.
    by rewrite stringify_parse_job.
  - rewrite map_map. induction rs as [|r rs IH]; [done|]. simpl in *.
    apply andb_true_iff in Hr as [Hr1%bool_decide_eq_true Hr2].
    by rewrite stringify_parse_job, IH.
Qed.

(** ** Further properties: what [check] may change *)

Lemma dead_async_not_alive w p : dead_async w p = true → alive w p = false.
Proof. unfold dead_async. by intros [?%negb_true_iff _]%andb_true_iff. Qed.

Lemma dead_sync_not_alive w p : dead_sync w p = true → alive w p = false.
Proof. unfold dead_sync. by intros ?%negb_true_iff. Qed.

Lemma survivors_keep_alive (d : Z → bool) (a : Z → bool) rs j :
  (∀ p, d p = true → a p = false) →
  In j rs → a (pid j) = true → In j (survivors d rs).
Proof.
  intros Hd Hin Ha. unfold survivors. apply filter_In. split; [done|].
  destruct (d (pid j)) eqn:E; [|done]. apply Hd in E. congruence.
Qed.

Lemma readers_persist f s :
  readers (record_of (persist f s)) = readers f.
Proof.
  rewrite record_of_persist. destruct (is_empty f) eqn:E; [|done].
  unfold is_empty in E. destruct (writer f); [done|]. by destruct (readers f).
Qed.

Lemma writer_persist f s :
  writer (record_of (persist f s)) = writer f.
Proof.
  rewrite record_of_persist. destruct (is_empty f) eqn:E; [|done].
  unfold is_empty in E. by destruct (writer f).
Qed.

Lemma classify_reaps dead type s :
  (∀ w p, dead w p = true → alive w p = false) →
  let s' := (classify dead type s).2 in
  this s' = this s
  ∧ active (world s') = active (world s)
  ∧ guarded (world s') = guarded (world s)
  ∧ events (world s') = events (world s)
  ∧ (∀ path, path ≠ file (this s) → files (world s') !! path = files (world s) !! path)
  ∧ (∀ w, writer (record_of s') = Some w → writer (record_of s) = Some w)
  ∧ (∀ j, In j (readers (record_of s')) → In j (readers (record_of s)))
  ∧ (∀ w, writer (record_of s) = Some w → alive (world s) (pid w) = true →
       writer (record_of s') = Some w)
  ∧ (∀ j, In j (readers (record_of s)) → alive (world s) (pid j) = true →
       In j (readers (record_of s'))).
Proof.
  intros Hdead. cbv zeta.
  assert (Hsame : ∀ s0, s0 = s →
            this s0 = this s ∧ active (world s0) = active (world s)
            ∧ guarded (world s0) = guarded (world s)
            ∧ events (world s0) = events (world s)
            ∧ (∀ path, path ≠ file (this s) →
                 files (world s0) !! path = files (world s) !! path)
            ∧ (∀ w, writer (record_of s0) = Some w → writer (record_of s) = Some w)
            ∧ (∀ j, In j (readers (record_of s0)) → In j (readers (record_of s)))
            ∧ (∀ w, writer (record_of s) = Some w → alive (world s) (pid w) = true →
                 writer (record_of s0) = Some w)
            ∧ (∀ j, In j (readers (record_of s)) → alive (world s) (pid j) = true →
                 In j (readers (record_of s0)))) by (intros s0 ->; done).
  assert (Hpers : ∀ f',
            writer f' = None →
            (∀ w, writer (record_of s) = Some w → alive (world s) (pid w) = false) →
            (∀ j, In j (readers f') → In j (readers (record_of s))) →
            (∀ j, In j (readers (record_of s)) → alive (world s) (pid j) = true →
               In j (readers f')) →
            this (persist f' s) = this s
            ∧ active (world (persist f' s)) = active (world s)
            ∧ guarded (world (persist f' s)) = guarded (world s)
            ∧ events (world (persist f' s)) = events (world s)
            ∧ (∀ path, path ≠ file (this s) →
                 files (world (persist f' s)) !! path = files (world s) !! path)
            ∧ (∀ w, writer (record_of (persist f' s)) = Some w →
                 writer (record_of s) = Some w)
            ∧ (∀ j, In j (readers (record_of (persist f' s))) →
                 In j (readers (record_of s)))
            ∧ (∀ w, writer (record_of s) = Some w → alive (world s) (pid w) = true →
                 writer (record_of (persist f' s)) = Some w)
            ∧ (∀ j, In j (readers (record_of s)) → alive (world s) (pid j) = true →
                 In j (readers (record_of (persist f' s))))).
  { intros f' Hw Hwd Hsub Hkeep.
    destruct (frame_persist f' s) as (_ & _ & _ & _ & Hf).
    rewrite readers_persist, writer_persist, Hw. split_and!; try done.
    intros w Hww Ha. rewrite (Hwd w Hww) in Ha. done. }
  unfold classify. cbv zeta.
  destruct (decide _); [by apply Hsame|].
  destruct (count (this s) write) eqn:Hc; [|by apply Hsame].
  fold (record_of s).
  destruct (writer (record_of s)) as [j|] eqn:Hw.
  - destruct (alive (world s) (pid j)) eqn:Ha; [by apply Hsame|].
    destruct type; simpl; apply Hpers; try done.
    + by intros w [= <-].
    + by intros w [= <-].
    + simpl. intros j0. apply survivors_In.
    + simpl. intros j0 Hj0 Haj. eapply survivors_keep_alive; [apply Hdead|done|done].
  - destruct type; [by apply Hsame|]. simpl.
    destruct (forallb _ _); [by apply Hsame|].
    apply Hpers; try done.
    + simpl. intros j0. apply survivors_In.
    + simpl. intros j0 Hj0 Haj. eapply survivors_keep_alive; [apply Hdead|done|done].
Qed.

(** X2: [check] and [checkSync] only reap.  The handle, the oracle, the
    trace and every other file stay as they are; the record afterwards holds
    no job that it did not hold before; and the writer and every reader whose
    process the oracle reports as running is still there. *)
Theorem check_only_reaps type s r s' :
  check type s = Some (r, s') ∨ checkSync type s = Some (r, s') →
  this s' = this s
  ∧ events (world s') = events (world s)
  ∧ (∀ path, path ≠ file (this s) → files (world s') !! path = files (world s) !! path)
  ∧ (∀ w, writer (record_of s') = Some w → writer (record_of s) = Some w)
  ∧ (∀ j, In j (readers (record_of s')) → In j (readers (record_of s)))
  ∧ (∀ w, writer (record_of s) = Some w → alive (world s) (pid w) = true →
       writer (record_of s') = Some w)
  ∧ (∀ j, In j (readers (record_of s)) → alive (world s) (pid j) = true →
       In j (readers (record_of s'))).
Proof.
  rewrite check_eq, checkSync_eq. intros [H|H]; injection H as H.
  - pose proof (classify_reaps dead_async type s dead_async_not_alive) as Hr.
    rewrite H in Hr. simpl in Hr. tauto.
  - pose proof (classify_reaps dead_sync type s dead_sync_not_alive) as Hr.
    rewrite H in Hr. simpl in Hr. tauto.
Qed.

Lemma classify_settled dead type s :
  file (this s) ∉ guarded (world s) →
  count (this s) write = 0%nat →
  writer (record_of s) = None →
  type = read
  ∨ forallb (fun j => negb (dead (world s) (pid j))) (readers (record_of s)) = true →
  classify dead type s
  = (match type with
     | read => Ok (open (file (this s)))
     | write =>
       if existsb (foreign (this s)) (readers (record_of s))
       then Ok (read_lock (file (this s)) (readers (record_of s)))
       else Ok (open (file (this s)))
     end, s).
Proof.
  intros Hg Hc Hw Hall. unfold classify. cbv zeta.
  destruct (decide _); [done|]. rewrite Hc. fold (record_of s). rewrite Hw.
  destruct type; [done|]. destruct Hall as [|Hall]; [done|].
  by rewrite Hall, survivors_all.
Qed.

Lemma classify_idem dead type s :
  (∀ w fs p, dead (set_files w fs) p = dead w p) →
  classify dead type (classify dead type s).2 = classify dead type s.
Proof.
  intros Hd.
  assert (Hset : ∀ f' rs,
            count (this s) write = 0%nat →
            file (this s) ∉ guarded (world s) →
            writer f' = None →
            type = read ∨ readers f' = survivors (dead (world s)) rs →
            classify dead type (persist f' s)
            = (match type with
               | read => Ok (open (file (this s)))
               | write =>
                 if existsb (foreign (this s)) (readers f')
                 then Ok (read_lock (file (this s)) (readers f'))
                 else Ok (open (file (this s)))
               end, persist f' s)).
  { intros f' rs Hc Hg Hw Hr.
    rewrite classify_settled; try done.
    - by rewrite readers_persist.
    - by rewrite writer_persist.
    - destruct Hr as [Hr|Hr]; [by left|right].
      rewrite readers_persist, Hr.
      assert (dead (world (persist f' s)) = dead (world s)) as ->.
      { apply functional_extensionality. intros p. apply Hd. }
      apply survivors_alive. }
  unfold classify at 2 3. cbv zeta.
  destruct (decide _) as [Hg|Hg].
  { simpl. unfold classify. cbv zeta. by destruct (decide _). }
  destruct (count (this s) write) eqn:Hc.
  2:{ simpl. unfold classify. cbv zeta. destruct (decide _); [done|]. by rewrite Hc. }
  fold (record_of s).
  destruct (writer (record_of s)) as [j|] eqn:Hw.
  - destruct (alive (world s) (pid j)) eqn:Ha.
    { simpl. unfold classify. cbv zeta. destruct (decide _); [done|].
      rewrite Hc. fold (record_of s). by rewrite Hw, Ha. }
    destruct type; simpl.
    + by rewrite (Hset _ []); [| | |done|left].
    + by rewrite (Hset _ (readers (record_of s))); [| | |done|right].
  - destruct type; simpl.
    { unfold classify. cbv zeta. destruct (decide _); [done|].
      rewrite Hc. fold (record_of s). by rewrite Hw. }
    destruct (forallb _ _) eqn:Hall.
    + rewrite classify_settled; [by rewrite survivors_all|done|done|done|by right].
    + by rewrite (Hset _ (readers (record_of s))); [| | |done|right].
Qed.

(** X3: a second [check] right after a [check] gives the same answer and
    changes nothing: one call reaps everything it will ever reap while the
    oracle stays as it is.  The same holds for [checkSync]. *)
Theorem check_idempotent type s r1 s1 r2 s2 :
  check type s = Some (r1, s1) →
  checkSync type s = Some (r2, s2) →
  check type s1 = Some (r1, s1) ∧ checkSync type s2 = Some (r2, s2).
Proof.
  rewrite !check_eq, !checkSync_eq. intros [= H1] [= H2]. split.
  - pose proof (classify_idem dead_async type s) as Hi.
    rewrite H1 in Hi. simpl in Hi. by rewrite Hi.
  - pose proof (classify_idem dead_sync type s) as Hi.
    rewrite H2 in Hi. simpl in Hi. by rewrite Hi.
Qed.

(** ** Further properties: who is blocked, who is let in *)

(** X4: while the record names a writer whose process is running, a handle
    that does not hold the write lock is told [write_lock] with that job by
    [check] and [checkSync], and its [tryLock] and [addSync] throw that
    status; nothing is changed, neither the record nor the counters. *)
Theorem live_writer_blocks type reason inc s j :
  file (this s) ∉ guarded (world s) →
  count (this s) write = 0%nat →
  count (this s) type = 0%nat →
  writer (record_of s) = Some j →
  alive (world s) (pid j) = true →
  let st := write_lock j (file (this s)) in
  check type s = Some (Ok st, s)
  ∧ checkSync type s = Some (Ok st, s)
  ∧ tryLock type reason inc s = Some (Throw (RWLockfileError st), s)
  ∧ addSync type reason s = Some (Throw (RWLockfileError st), s).
Proof.
  intros Hg Hc Hct Hw Ha st.
  assert (Hcl : ∀ dead, classify dead type s = (Ok st, s)).
  { intros dead. unfold classify. cbv zeta. destruct (decide _); [done|].
    rewrite Hc. fold (record_of s). by rewrite Hw, Ha. }
  unfold addSync. rewrite check_eq, checkSync_eq, tryLock_eq, lockSync_eq, !Hcl.
  unfold grant. destruct (decide _); [done|]. by rewrite Hct, !Hcl.
Qed.

(** X5: while the record has no writer and holds a reader job of another
    handle whose process is running, a write request is refused: [check]
    answers [read_lock] with a list that names that job, [tryLock('write')]
    throws that status, and no writer is installed. *)
Theorem live_reader_blocks_writer reason inc s j :
  file (this s) ∉ guarded (world s) →
  count (this s) write = 0%nat →
  writer (record_of s) = None →
  In j (readers (record_of s)) →
  foreign (this s) j = true →
  alive (world s) (pid j) = true →
  ∃ jobs s',
    check write s = Some (Ok (read_lock (file (this s)) jobs), s')
    ∧ tryLock write reason inc s
      = Some (Throw (RWLockfileError (read_lock (file (this s)) jobs)), s')
    ∧ In j jobs
    ∧ this s' = this s
    ∧ writer (record_of s') = None
    ∧ In j (readers (record_of s')).
Proof.
  intros Hg Hc Hw Hin Hf Ha.
  pose proof (classify_reaps dead_async write s dead_async_not_alive) as Hr.
  cbv zeta in Hr. destruct Hr as (Ht & _ & _ & _ & _ & Hws & _ & _ & Hkeep).
  set (surv := survivors (dead_async (world s)) (readers (record_of s))).
  assert (Hsurv : In j surv).
  { eapply survivors_keep_alive; [apply dead_async_not_alive|done|done]. }
  assert (Hex : existsb (foreign (this s)) surv = true).
  { apply existsb_exists. by exists j. }
  assert (Hcl : (classify dead_async write s).1 = Ok (read_lock (file (this s)) surv)).
  { unfold classify. cbv zeta. destruct (decide _); [done|].
    rewrite Hc. fold (record_of s). rewrite Hw. fold surv. by rewrite Hex. }
  destruct (classify dead_async write s) as [r s'] eqn:E.
  cbn [fst snd] in *. subst r.
  exists surv, s'. rewrite check_eq, tryLock_eq. unfold grant.
  destruct (decide _); [done|]. rewrite Hc, E. split_and!; try done.
  - destruct (writer (record_of s')) as [w|] eqn:Hw'; [|done].
    specialize (Hws w eq_refl). congruence.
  - by apply Hkeep.
Qed.

(** X6: the read lock is shared.  On a record without writer, a handle that
    holds nothing gets the read lock from [tryLock] and from [addSync]
    whatever readers there are: its job is appended after them, they all
    stay, running or not, and its read counter becomes 1. *)
Theorem read_lock_is_shared reason s :
  file (this s) ∉ guarded (world s) →
  count (this s) read = 0%nat →
  count (this s) write = 0%nat →
  writer (record_of s) = None →
  let s' := bump read (persist (with_job read (new_job s reason) (record_of s)) s) in
  tryLock read reason true s = Some (Ok tt, s')
  ∧ addSync read reason s = Some (Ok tt, s')
  ∧ check read s = Some (Ok (open (file (this s))), s)
  ∧ readers (record_of s') = readers (record_of s) ++ [new_job s reason]
  ∧ writer (record_of s') = None
  ∧ count (this s') read = 1%nat.
Proof.
  intros Hg Hr Hc Hw s'.
  assert (Hcl : ∀ dead, classify dead read s = (Ok (open (file (this s))), s)).
  { intros dead. by rewrite classify_settled; [|done|done|done|left]. }
  unfold addSync. rewrite tryLock_eq, lockSync_eq, check_eq, Hcl. unfold grant.
  destruct (decide _); [done|]. rewrite Hr, !Hcl.
  split_and!; try done.
  - unfold s', bump. rewrite record_of_with_count. apply readers_persist.
  - unfold s', bump. rewrite record_of_with_count, writer_persist. exact Hw.
  - unfold s', bump. rewrite count_with_count_state.
    change (this (persist ?f s)) with (this s). by rewrite Hr.
Qed.

(** X7: a [tryLock] or [addSync] that throws has granted nothing: the
    handle and its counters are as before, the trace is as before, and the
    record holds no job that it did not hold before. *)
Theorem failed_attempt_grants_nothing type reason inc s e s' :
  tryLock type reason inc s = Some (Throw e, s')
  ∨ addSync type reason s = Some (Throw e, s') →
  this s' = this s
  ∧ events (world s') = events (world s)
  ∧ (∀ w, writer (record_of s') = Some w → writer (record_of s) = Some w)
  ∧ (∀ j, In j (readers (record_of s')) → In j (readers (record_of s))).
Proof.
  unfold addSync. rewrite tryLock_eq, lockSync_eq.
  assert (Hgen : ∀ dead i, (∀ w p, dead w p = true → alive w p = false) →
            grant dead type reason i s = Some (Throw e, s') →
            this s' = this s
            ∧ events (world s') = events (world s)
            ∧ (∀ w, writer (record_of s') = Some w → writer (record_of s) = Some w)
            ∧ (∀ j, In j (readers (record_of s')) → In j (readers (record_of s)))).
  { intros dead i Hd. unfold grant.
    destruct (decide _); [by intros [= _ <-]|].
    destruct (count (this s) type); [|by destruct i].
    pose proof (classify_reaps dead type s Hd) as Hr. cbv zeta in Hr.
    destruct (classify dead type s) as [[[p|j p|p js]|e0] s1]; simpl in Hr;
      intros [= _ <-]; tauto. }
  intros [H|H]; eapply Hgen; try exact H.
  - apply dead_async_not_alive.
  - apply dead_sync_not_alive.
Qed.

(** ** Further properties: taking and giving back *)

(** X8: taking the write lock and giving it back.  When [check('write')]
    answers [open] for a handle whose write counter is 0, [tryLock('write')]
    installs the handle's job as the writer and sets the counter to 1, and
    the following [remove('write')] (or [removeSync]) clears the writer and
    the counter and leaves the readers that [check] had left. *)
Theorem write_grant_release_round_trip reason s p s1 :
  count (this s) write = 0%nat →
  check write s = Some (Ok (open p), s1) →
  let held :=
    bump write (persist (with_job write (new_job s1 reason) (record_of s1)) s1) in
  tryLock write reason true s = Some (Ok tt, held)
  ∧ writer (record_of held) = Some (new_job s1 reason)
  ∧ count (this held) write = 1%nat
  ∧ remove write held = Some (Ok tt, released write held)
  ∧ removeSync write held = Some (Ok tt, released write held)
  ∧ count (this (released write held)) write = 0%nat
  ∧ count (this (released write held)) read = count (this s) read
  ∧ writer (record_of (released write held)) = None
  ∧ readers (record_of (released write held)) = readers (record_of s1).
Proof.
  intros Hc Hopen held.
  rewrite check_eq in Hopen. injection Hopen as Hopen.
  assert (Hthis : this s1 = this s).
  { rewrite <- (classify_this dead_async write s). by rewrite Hopen. }
  assert (Hgs : guarded (world s1) = guarded (world s)).
  { rewrite <- (classify_guarded dead_async write s). by rewrite Hopen. }
  assert (Hg : file (this s) ∉ guarded (world s)).
  { intros Hin. unfold classify in Hopen. cbv zeta in Hopen. by destruct (decide _). }
  assert (Hc1 : count (this s1) write = 0%nat) by by rewrite Hthis.
  assert (Hrec : record_of held = with_job write (new_job s1 reason) (record_of s1)).
  { unfold held, bump. rewrite record_of_with_count. by apply record_of_persist_job. }
  assert (Hcount : count (this held) write = 1%nat).
  { unfold held, bump. rewrite count_with_count_state.
    change (this (persist ?f s1)) with (this s1). by rewrite Hc1. }
  assert (Hgh : file (this held) ∉ guarded (world held)).
  { unfold held, bump, with_count_state, file. simpl. unfold file in Hg.
    by rewrite Hthis, Hgs. }
  destruct (remove_last write held Hcount Hgh) as [Hrm Hrms].
  split_and!; [|
    |exact Hcount|exact Hrm|exact Hrms| | | |].
  - rewrite tryLock_eq. unfold grant. destruct (decide _); [done|].
    by rewrite Hc, Hopen.
  - by rewrite Hrec.
  - apply count_released.
  - rewrite count_released_other by done. unfold held, bump. simpl. by rewrite Hthis.
  - unfold released. fold (record_of held).
    rewrite record_of_with_count, writer_persist, Hrec. simpl.
    by rewrite String.eqb_refl.
  - unfold released. fold (record_of held).
    rewrite record_of_with_count, readers_persist, Hrec. simpl.
    by rewrite String.eqb_refl.
Qed.

(** X9: a release takes out the caller's jobs only.  [unlock(type)] and
    [unlockSync(type)] on a handle that holds the type keep the reader jobs
    of other handles, in their order, keep a writer that is not the caller's,
    keep the counter of the other type and touch no other file. *)
Theorem release_keeps_foreign_jobs type s n :
  file (this s) ∉ guarded (world s) →
  count (this s) type = S n →
  let s' := released type s in
  unlock (Some type) s = Some (Ok tt, s')
  ∧ unlockSync (Some type) s = Some (Ok tt, s')
  ∧ readers (record_of s')
    = match type with
      | read => List.filter (foreign (this s)) (readers (record_of s))
      | write => readers (record_of s)
      end
  ∧ writer (record_of s')
    = match type, writer (record_of s) with
      | write, Some w => if foreign (this s) w then Some w else None
      | _, w => w
      end
  ∧ (∀ t, t ≠ type → count (this s') t = count (this s) t)
  ∧ (∀ path, path ≠ file (this s) → files (world s') !! path = files (world s) !! path).
Proof.
  intros Hg Hc s'. unfold unlock, unlockSync.
  rewrite unlock_type_eq, unlockSync_type_eq, Hc.
  destruct (decide _); [done|]. split_and!; try done.
  - unfold s', released. rewrite record_of_with_count, readers_persist.
    fold (record_of s). destruct type; simpl; [reflexivity|].
    destruct (writer (record_of s)) as [w|]; [|reflexivity].
    by destruct (String.eqb _ _).
  - unfold s', released. rewrite record_of_with_count, writer_persist.
    fold (record_of s).
    destruct type; simpl; [by destruct (writer (record_of s))|].
    destruct (writer (record_of s)) as [w|] eqn:Hw; [|by rewrite Hw].
    unfold foreign. destruct (String.eqb _ _); simpl; [done|by rewrite Hw].
  - intros t Hne. by apply count_released_other.
  - intros path Hne. unfold s', released.
    destruct (frame_persist (without_job type (this s) (record_of s)) s)
      as (_ & _ & _ & _ & Hf).
    destruct type; by apply Hf.
Qed.

Lemma persist_garbled f s :
  is_empty f = false → persist f (garbled s) = persist f s.
Proof.
  intros He. unfold persist, garbled, save. simpl. rewrite He.
  by rewrite insert_insert_eq.
Qed.

Lemma record_of_garbled s : record_of (garbled s) = empty_record.
Proof. unfold record_of, garbled, load. simpl. by rewrite lookup_insert_eq. Qed.

(** X10: a record file that does not parse counts as an empty record.  A
    handle that holds nothing is told [open] by [check] and [checkSync], and
    its [tryLock] succeeds and replaces the file by a record that holds its
    job alone. *)
Theorem garbage_file_is_open type reason s :
  file (this s) ∉ guarded (world s) →
  count (this s) type = 0%nat →
  count (this s) write = 0%nat →
  let s' := bump type (persist (with_job type (new_job s reason) empty_record) s) in
  check type (garbled s) = Some (Ok (open (file (this s))), garbled s)
  ∧ checkSync type (garbled s) = Some (Ok (open (file (this s))), garbled s)
  ∧ tryLock type reason true (garbled s) = Some (Ok tt, s')
  ∧ addSync type reason (garbled s) = Some (Ok tt, s')
  ∧ record_of s' = with_job type (new_job s reason) empty_record.
Proof.
  intros Hg Ht Hc s'.
  assert (Hcl : ∀ dead, classify dead type (garbled s)
                        = (Ok (open (file (this s))), garbled s)).
  { intros dead. rewrite classify_settled; try done.
    - rewrite record_of_garbled. by destruct type.
    - by rewrite record_of_garbled.
    - right. by rewrite record_of_garbled. }
  assert (Hne : is_empty (with_job type (new_job s reason) empty_record) = false)
    by by destruct type.
  unfold addSync. rewrite check_eq, checkSync_eq, tryLock_eq, lockSync_eq, !Hcl.
  unfold grant. change (this (garbled s)) with (this s).
  change (guarded (world (garbled s))) with (guarded (world s)).
  destruct (decide _); [done|]. rewrite Ht, !Hcl.
  fold (record_of (garbled s)). rewrite record_of_garbled.
  change (new_job (garbled s) reason) with (new_job s reason).
  rewrite persist_garbled by done. split_and!; try done.
  unfold s', bump. rewrite record_of_with_count. by apply record_of_persist_job.
Qed.

(** X11: only the loop of [add] calls out.  Every other call, the whole
    synchronous surface among them, leaves the trace as it is whatever its
    outcome: [addSync] on a locked record throws without calling the
    [ifLocked] callback and without sleeping. *)
Theorem only_add_calls_out c s r s' :
  match c with CallAdd _ _ => False | _ => True end →
  run_call c s = Some (r, s') →
  events (world s') = events (world s).
Proof.
  assert (Hu : ∀ t s0 r0 s0', unlock_type t s0 = Some (r0, s0') →
            events (world s0') = events (world s0)).
  { intros t s0 r0 s0'. rewrite unlock_type_eq.
    destruct (count (this s0) t); [by intros [= <- <-]|].
    destruct (decide _); intros [= <- <-]; [done|by destruct t]. }
  assert (Hus : ∀ t s0 r0 s0', unlockSync_type t s0 = Some (r0, s0') →
            events (world s0') = events (world s0)).
  { intros t s0 r0 s0'. rewrite unlockSync_type_eq.
    destruct (count (this s0) t); [by intros [= <- <-]|].
    destruct (decide _); intros [= <- <-]; [done|by destruct t]. }
  destruct c as [type opts|type reason|type reason inc|type|type|type|type|type|type];
    intros Hc; [done|..]; simpl.
  - unfold addSync. rewrite lockSync_eq. apply grant_events.
  - apply tryLock_events.
  - unfold remove, bind at 1, get_this.
    destruct (count (this s) type) as [|[|n]] eqn:E.
    + by intros [= <- <-].
    + apply Hu.
    + intros [= <- <-]. by destruct type.
  - unfold removeSync, bind at 1, get_this.
    destruct (count (this s) type) as [|[|n]] eqn:E.
    + by intros [= <- <-].
    + apply Hus.
    + intros [= <- <-]. by destruct type.
  - destruct type as [t|]; simpl; [apply Hu|]. unfold bind.
    destruct (unlock_type read s) as [[[[]|e] s1]|] eqn:H1; [| |done].
    + intros H2. apply Hu in H1, H2. congruence.
    + intros [= <- <-]. by apply Hu in H1.
  - destruct type as [t|]; simpl; [apply Hus|]. unfold bind.
    destruct (unlockSync_type write s) as [[[[]|e] s1]|] eqn:H1; [| |done].
    + intros H2. apply Hus in H1, H2. congruence.
    + intros [= <- <-]. by apply Hus in H1.
  - unfold bind. rewrite check_eq.
    pose proof (classify_events dead_async type s) as He.
    destruct (classify dead_async type s) as [[st|e] s1]; by intros [= <- <-].
  - unfold bind. rewrite checkSync_eq.
    pose proof (classify_events dead_sync type s) as He.
    destruct (classify dead_sync type s) as [[st|e] s1]; by intros [= <- <-].
Qed.

(** X15: an acquisition of a type the handle already holds only counts.
    [add] raises the counter without taking the Exclusive Guard and without
    reading the record, so it succeeds whatever the world holds; [tryLock]
    and [addSync] take the guard first and throw its error when it is held
    elsewhere. *)
Theorem reentrant_acquisition_only_counts ticks type opts reason s n :
  count (this s) type = S n →
  add ticks type opts s = Some (Ok tt, bump type s)
  ∧ tryLock type reason true s
    = (if decide (file (this s) ∈ guarded (world s))
       then Some (Throw GuardAcquisitionError, s)
       else Some (Ok tt, bump type s))
  ∧ addSync type reason s
    = (if decide (file (this s) ∈ guarded (world s))
       then Some (Throw GuardAcquisitionError, s)
       else Some (Ok tt, bump type s)).
Proof.
  intros Hc. split; [by eapply add_held|].
  unfold addSync. rewrite tryLock_eq, lockSync_eq. unfold grant.
  destruct (decide _); [done|]. by rewrite Hc.
Qed.

(** ** Further properties: the budget of the loop *)








(** ** Further properties: the exit handler *)

Lemma shrinks_refl w : shrinks w w.
Proof. by intros path. Qed.

Lemma shrinks_trans w1 w2 w3 : shrinks w1 w2 → shrinks w2 w3 → shrinks w1 w3.
Proof.
  intros H12 H23 path. destruct (H12 path) as [Hw Hr], (H23 path) as [Hw' Hr'].
  split; auto.
Qed.

Lemma released_shrinks type s : shrinks (world s) (world (released type s)).
Proof.
  intros path. unfold released.
  change (world (with_count_state type 0 ?x)) with (world x).
  set (f' := without_job type (this s) (load (world s) (file (this s)))).
  destruct (decide (path = file (this s))) as [->|Hne].
  - change (load (world (persist f' s)) (file (this s)))
      with (record_of (persist f' s)).
    change (load (world s) (file (this s))) with (record_of s).
    rewrite writer_persist, readers_persist.
    apply (without_job_shrink type (this s) (record_of s)).
  - destruct (frame_persist f' s) as (_ & _ & _ & _ & Hf).
    by rewrite (load_files (world s)) by by apply Hf.
Qed.

Lemma unlocked_shrinks type s : shrinks (world s) (world (unlocked type s)).
Proof.
  unfold unlocked. destruct (count (this s) type);
    [apply shrinks_refl|apply released_shrinks].
Qed.

Lemma holds_job_shrinks type h f f' :
  (∀ x, writer f' = Some x → writer f = Some x) →
  (∀ j, In j (readers f') → In j (readers f)) →
  holds_job type h f = false → holds_job type h f' = false.
Proof.
  intros Hw Hr. destruct type; simpl.
  - intros Hf. apply not_true_iff_false. intros [j [Hj Hu]]%existsb_exists.
    assert (existsb (fun r => String.eqb (uuid r) (h_uuid h)) (readers f) = true);
      [|congruence].
    apply existsb_exists. exists j. auto.
  - destruct (writer f') as [x|] eqn:E; [|done]. by rewrite (Hw x eq_refl).
Qed.

Lemma unlocked_base type s : base (this (unlocked type s)) = base (this s).
Proof. unfold unlocked. destruct (count (this s) type); [done|by destruct type]. Qed.

Lemma unlocked_world_guarded type s :
  guarded (world (unlocked type s)) = guarded (world s).
Proof. unfold unlocked. destruct (count (this s) type); [done|by destruct type]. Qed.

Lemma unlocked_both_idle s :
  this (unlocked read (unlocked write s)) = idle (this s).
Proof.
  unfold unlocked, idle.
  destruct (count (this s) write) eqn:Hw.
  - destruct (count (this s) read) eqn:Hr.
    + destruct s as [[b i t r u p [cr cw]] w]. simpl in *. by subst.
    + destruct s as [[b i t r u p [cr cw]] w]. simpl in *. by subst.
  - change (count (this (released write s)) read) with (count (this s) read).
    destruct (count (this s) read) eqn:Hr.
    + destruct s as [[b i t r u p [cr cw]] w]. simpl in *. by subst.
    + done.
Qed.

Lemma unlockSync_all s :
  file (this s) ∉ guarded (world s) →
  unlockSync None s = Some (Ok tt, unlocked read (unlocked write s)).
Proof.
  intros Hg. unfold unlockSync, bind.
  destruct (unlock_type_unlocked write s Hg) as [_ ->].
  by destruct (unlock_type_unlocked read (unlocked write s)) as [_ ->];
    [apply unlocked_guarded|].
Qed.

Lemma unlockSync_guarded s :
  file (this s) ∈ guarded (world s) →
  try_catch (unlockSync None) (fun err => ret tt) s = Some (Ok tt, s).
Proof.
  intros Hg. unfold try_catch, unlockSync, bind.
  rewrite unlockSync_type_eq.
  destruct (count (this s) write).
  - rewrite unlockSync_type_eq. destruct (count (this s) read); [done|].
    by destruct (decide _).
  - by destruct (decide _).
Qed.

(** X14: the exit handler releases.  When the Exclusive Guard of every
    registered handle is free, the handler leaves every handle with both
    counters at 0, takes the job of every handle out of the record for each
    type the handle held, and adds no job anywhere. *)
Theorem exit_handler_releases instances w :
  (∀ h, In h instances → file h ∉ guarded w) →
  ∃ w', on_exit instances w = Some (map idle instances, w')
        ∧ shrinks w w'
        ∧ ∀ h type, In h instances → count h type ≠ 0%nat →
            holds_job type h (load w' (file h)) = false.
Proof.
  revert w. induction instances as [|i rest IH]; intros w Hg.
  { exists w. split_and!; [done|apply shrinks_refl|by intros h type []]. }
  set (s := mkState i w).
  assert (Hgi : file (this s) ∉ guarded (world s)) by (apply Hg; by left).
  cbn [on_exit]. fold s. unfold try_catch. rewrite unlockSync_all by done.
  set (s1 := unlocked read (unlocked write s)).
  assert (Hgd : guarded (world s1) = guarded w).
  { unfold s1. by rewrite !unlocked_world_guarded. }
  destruct (IH (world s1)) as (w' & Hrun & Hsh & Hrel).
  { intros h Hh. rewrite Hgd. apply Hg. by right. }
  rewrite Hrun. exists w'. split_and!.
  - cbn [map]. unfold s1. by rewrite unlocked_both_idle.
  - eapply shrinks_trans; [|exact Hsh].
    eapply shrinks_trans; [apply (unlocked_shrinks write s)|].
    apply (unlocked_shrinks read (unlocked write s)).
  - intros h type [<-|Hh] Hc; [|by apply Hrel].
    destruct (Hsh (file i)) as [Hw Hr].
    eapply holds_job_shrinks; [exact Hw|exact Hr|].
    assert (Hfile : file (this s1) = file i).
    { apply file_base. unfold s1. by rewrite !unlocked_base. }
    assert (Hjob : holds_job type (this s1) (record_of s1) = false).
    { unfold s1. destruct type.
      - apply unlocked_holds. by rewrite unlocked_count_other.
      - rewrite unlocked_holds_other by done. by apply unlocked_holds. }
    unfold record_of in Hjob. rewrite Hfile in Hjob.
    unfold s1 in Hjob at 1. rewrite unlocked_both_idle in Hjob.
    by destruct type.
Qed.

(** X18: the exit handler swallows.  When the Exclusive Guard of every
    registered handle is held elsewhere, each [unlockSync] throws, or has
    nothing to do, and the handler ends all the same with the handles, their
    counters and the files as they were. *)
Theorem exit_handler_swallows instances w :
  (∀ h, In h instances → file h ∈ guarded w) →
  on_exit instances w = Some (instances, w).
Proof.
  revert w. induction instances as [|i rest IH]; intros w Hg; [done|].
  cbn [on_exit]. rewrite unlockSync_guarded by (apply Hg; by left).
  simpl. rewrite IH; [done|]. intros h Hh. apply Hg. by right.
Qed.

(** ** Further properties: counting down, and what a grant implies *)

(** X16: [remove] saturates at 0.  On a handle that holds the type [k]
    times, [k] removes release it and any further removes change nothing:
    [k + m] removes leave the state of the one release. *)
Theorem remove_saturates type k m s :
  file (this s) ∉ guarded (world s) →
  count (this s) type = S k →
  repeatM (S k + m) (remove type) s
  = Some (Ok tt, released type (with_count_state type 1 s))
  ∧ count (this (released type (with_count_state type 1 s))) type = 0%nat.
Proof.
  intros Hg Hc.
  assert (Hs : s = with_count_state type (1 + k) s).
  { destruct s as [[b i t r u p [cr cw]] w]. destruct type; simpl in *; by subst. }
  split; [|apply count_released].
  replace (S k + m)%nat with (k + (1 + m))%nat by lia.
  rewrite repeatM_add. unfold bind at 1. rewrite Hs at 1.
  rewrite repeat_remove_held. cbn [repeatM Nat.add]. unfold bind at 1.
  destruct (remove_last type (with_count_state type 1 s)) as [-> _].
  { apply count_with_count_state. }
  { by destruct type. }
  set (s0 := released type (with_count_state type 1 s)).
  assert (H0 : count (this s0) type = 0%nat) by apply count_released.
  clearbody s0. clear -H0. induction m as [|m IH]; [done|].
  cbn [repeatM]. unfold bind. by destruct (remove_idle type s0 H0) as [-> _].
Qed.

(** X17: what a grant implies.  When [tryLock] or [addSync] grants a lock
    to a handle that does not hold the write lock, the record it leaves has no
    writer besides a read grant, and besides a write grant it has the handle's
    new job as writer and no reader job of another handle. *)
Theorem grant_respects_exclusion type reason inc s s' :
  count (this s) type = 0%nat →
  count (this s) write = 0%nat →
  tryLock type reason inc s = Some (Ok tt, s')
  ∨ addSync type reason s = Some (Ok tt, s') →
  holds_job type (this s) (record_of s') = true
  ∧ match type with
    | read => writer (record_of s') = None
    | write =>
      (∃ w, writer (record_of s') = Some w ∧ uuid w = h_uuid (this s)
            ∧ pid w = process_pid (this s))
      ∧ Forall (fun j => uuid j = h_uuid (this s)) (readers (record_of s'))
    end.
Proof.
  intros Ht Hc. unfold addSync. rewrite tryLock_eq, lockSync_eq.
  assert (Hgen : ∀ dead i,
            grant dead type reason i s = Some (Ok tt, s') →
            holds_job type (this s) (record_of s') = true
            ∧ match type with
              | read => writer (record_of s') = None
              | write =>
                (∃ w, writer (record_of s') = Some w ∧ uuid w = h_uuid (this s)
                      ∧ pid w = process_pid (this s))
                ∧ Forall (fun j => uuid j = h_uuid (this s)) (readers (record_of s'))
              end).
  { intros dead i. unfold grant. destruct (decide _); [done|]. rewrite Ht.
    pose proof (classify_open dead type s) as Hop.
    pose proof (classify_this dead type s) as Hth.
    destruct (classify dead type s) as [[[p|j p|p js]|e] s1]; try done.
    specialize (Hop p s1 eq_refl). simpl in Hth.
    destruct Hop as [Hpos|[Hnw Hall]]; [rewrite Hth in Hpos; lia|].
    fold (record_of s1).
    set (f' := with_job type (new_job s1 reason) (record_of s1)).
    assert (Hne : is_empty f' = false).
    { unfold f', is_empty. destruct type; simpl; [|done]. rewrite Hnw.
      by destruct (readers (record_of s1)). }
    assert (Hrec :
              holds_job type (this s) f' = true
              ∧ match type with
                | read => writer f' = None
                | write =>
                  (∃ w, writer f' = Some w ∧ uuid w = h_uuid (this s)
                        ∧ pid w = process_pid (this s))
                  ∧ Forall (fun j => uuid j = h_uuid (this s)) (readers f')
                end).
    { unfold f'. destruct type; simpl.
      - split; [|done]. rewrite existsb_app. simpl.
        by rewrite Hth, String.eqb_refl, orb_true_r.
      - rewrite Hth, String.eqb_refl. split; [done|]. split.
        + exists (new_job s1 reason). unfold new_job. simpl. by rewrite Hth.
        + rewrite <- Hth. by apply Hall. }
    destruct i; intros [= <-].
    - unfold bump. rewrite record_of_with_count, record_of_persist_job by done.
      exact Hrec.
    - rewrite record_of_persist_job by done. exact Hrec. }
  intros [H|H]; by eapply Hgen.
Qed.

(** ** Further properties: frames, counters, and the two surfaces *)

(** X19: no call reaches beyond its own record.  Whatever call a handle
    makes and however it ends, the files of all other paths, the liveness
    oracle and the handle's base, uuid and process id are as before. *)
Theorem call_touches_own_record_only c s r s' :
  run_call c s = Some (r, s') →
  base (this s') = base (this s)
  ∧ h_uuid (this s') = h_uuid (this s)
  ∧ process_pid (this s') = process_pid (this s)
  ∧ active (world s') = active (world s)
  ∧ ∀ path, path ≠ file (this s) → files (world s') !! path = files (world s) !! path.
Proof. intros Hrun. apply call_effect in Hrun. by apply effect_frame in Hrun. Qed.

Lemma grant_this dead type reason s r s' :
  grant dead type reason false s = Some (r, s') → this s' = this s.
Proof.
  unfold grant. destruct (decide _); [by intros [= _ <-]|].
  destruct (count (this s) type); [|by intros [= _ <-]].
  pose proof (classify_this dead type s) as Ht.
  destruct (classify dead type s) as [[[p|j p|p js]|e] s1]; simpl in Ht;
    by intros [= _ <-].
Qed.

Lemma lock_loop_this type reason ticks :
  ∀ t r cb s res s',
    _lock_loop ticks type reason t r cb s = Some (res, s') → this s' = this s.
Proof.
  induction ticks as [|tk ticks IH]; intros t r cb s res s' Hrun;
    rewrite lock_loop_eq, tryLock_eq in Hrun;
    destruct (grant dead_async type reason false (logged (EvTryLock type) s))
      as [[[[]|e] s1]|] eqn:Hgr; try done;
    apply grant_this in Hgr; simpl in Hgr.
  - by injection Hrun as <- <-.
  - destruct e as [st| | |]; try by injection Hrun as <- <-.
    destruct (Qltb t 0); [|done]. injection Hrun as <- <-.
    unfold called. by destruct (ran cb).
  - by injection Hrun as <- <-.
  - destruct e as [st| | |]; try by injection Hrun as <- <-.
    destruct (Qltb t 0).
    + injection Hrun as <- <-. unfold called. by destruct (ran cb).
    + cbv zeta in Hrun. apply IH in Hrun. rewrite Hrun. unfold slept, called.
      by destruct (ran cb).
Qed.

(** X20: [add] counts once.  When [add] returns, the counter of the type
    is one higher than before; when it throws, after any number of retries,
    the counters are as before; the counter of the other type never
    changes. *)
Theorem add_counts_once ticks type opts s r s' :
  add ticks type opts s = Some (r, s') →
  count (this s') type
  = (count (this s) type + match r with Ok _ => 1 | Throw _ => 0 end)%nat
  ∧ ∀ t, t ≠ type → count (this s') t = count (this s) t.
Proof.
  unfold add, bind at 1, get_this.
  destruct (count (this s) type) eqn:Hc.
  - unfold bind. destruct (_lock ticks type opts s) as [[[[]|e] s1]|] eqn:Hl; [| |done].
    + rewrite lock_eq in Hl. apply lock_loop_this in Hl.
      rewrite incr_count_eq. intros [= <- <-]. unfold bump.
      rewrite count_with_count_state, Hl, Hc. split; [done|].
      intros t Hne. rewrite <- Hl. by destruct t, type.
    + rewrite lock_eq in Hl. apply lock_loop_this in Hl.
      intros [= <- <-]. rewrite Hl, Hc. split; [done|]. by intros t _.
  - unfold bind. simpl. rewrite incr_count_eq. intros [= <- <-]. unfold bump.
    rewrite count_with_count_state, Hc. split; [lia|].
    intros t Hne. by destruct t, type.
Qed.

Lemma classify_async_sync type s :
  Forall (fun j => pid j ≠ 0) (readers (record_of s)) →
  classify dead_async type s = classify dead_sync type s.
Proof.
  intros Hnz. unfold classify. cbv zeta. fold (record_of s).
  by rewrite survivors_async_sync, forallb_async_sync.
Qed.

(** X21: the two surfaces agree.  On a record none of whose reader jobs has
    process id 0, [check] and [checkSync] give the same answer and leave the
    same state, and so do [tryLock] and [addSync]. *)
Theorem async_and_sync_agree type reason s :
  Forall (fun j => pid j ≠ 0) (readers (record_of s)) →
  check type s = checkSync type s
  ∧ tryLock type reason true s = addSync type reason s.
Proof.
  intros Hnz. unfold addSync.
  rewrite check_eq, checkSync_eq, tryLock_eq, lockSync_eq. unfold grant.
  by rewrite classify_async_sync.
Qed.

End rwlockfile.

(** * Instances at sample states *)

Lemma check_self_ownership_witness :
  let s := with_count_state write 1 (mkState handle_A quiet_world) in
  (0 < count (this s) write)%nat
  ∧ (file (this s) ∉ guarded (world s))
  ∧ check "1.4.1" read s = Some (Ok (open "/tmp/x.lock"), s)
  ∧ checkSync "1.4.1" write s = Some (Ok (open "/tmp/x.lock"), s).
Proof.
  intros s.
  assert (Hc : (0 < count (this s) write)%nat) by (simpl; lia).
  assert (Hg : file (this s) ∉ guarded (world s)) by apply not_elem_of_empty.
  split; [exact Hc|]. split; [exact Hg|].
  split; [apply (check_self_ownership "1.4.1" read s Hc Hg)|].
  apply (check_self_ownership "1.4.1" write s Hc Hg).
Defined.

Lemma check_reclaims_stale_writer_witness :
  let stale := job_of "A" 999 in
  let s := mkState handle_B
             (world_with (mkJSON "1.4.1" (Some stale) []) oracle_999) in
  (file (this s) ∉ guarded (world s))
  ∧ count (this s) write = 0%nat
  ∧ writer (load "1.4.1" (world s) (file (this s))) = Some stale
  ∧ active (world s) (pid stale) ≠ Some true
  ∧ check "1.4.1" write s = Some (Ok (open "/tmp/x.lock"), file_absent s).
Proof.
  intros stale s.
  assert (Hg : file (this s) ∉ guarded (world s)) by apply not_elem_of_empty.
  assert (Hc : count (this s) write = 0%nat) by reflexivity.
  assert (Hw : writer (load "1.4.1" (world s) (file (this s))) = Some stale)
    by reflexivity.
  assert (Ha : active (world s) (pid stale) ≠ Some true) by discriminate.
  do 4 (split; [assumption|]).
  destruct (check_reclaims_stale_writer "1.4.1" write s stale Hg Hc Hw Ha)
    as ([-> _] & _ & _ & _).
  reflexivity.
Defined.

(** C8, at a failing input: the record has no writer and one reader job, of
    another handle and of process 0, which the oracle reports as not
    running.  [checkSync('write')] purges the job, deletes the file and
    answers [open]; [check('write')] keeps the job and answers [read_lock]
    naming it. *)
Theorem check_write_keeps_dead_reader_of_pid_0 :
  let ghost := job_of "A" 0 in
  let s := mkState handle_B (world_with (mkJSON "1.4.1" None [ghost]) oracle_0) in
  alive (world s) (pid ghost) = false
  ∧ count (this s) write = 0%nat
  ∧ checkSync "1.4.1" write s = Some (Ok (open "/tmp/x.lock"), file_absent s)
  ∧ check "1.4.1" write s = Some (Ok (read_lock "/tmp/x.lock" [ghost]), s).
Proof. repeat split. Qed.

Lemma unlock_forces_release_witness :
  let s := with_count_state read 3
             (mkState handle_A
                (world_with (mkJSON "1.4.1" None [job_A; job_of "B" 200])
                   (fun _ => Some true))) in
  (file (this s) ∉ guarded (world s))
  ∧ ∃ s', unlock "1.4.1" (Some read) s = Some (Ok tt, s')
          ∧ count (this s') read = 0%nat
          ∧ holds_job read (this s') (record_of "1.4.1" s') = false
          ∧ readers (record_of "1.4.1" s') = [job_of "B" 200].
Proof.
  intros s.
  assert (Hg : file (this s) ∉ guarded (world s)) by apply not_elem_of_empty.
  split; [exact Hg|].
  destruct (unlock_forces_release "1.4.1" read s Hg)
    as [(s' & Hu & _ & Hc & Hpos & _) _].
  exists s'. destruct Hpos as [-> Hh]; [discriminate|].
  split; [exact Hu|]. split; [reflexivity|]. split; [exact Hh|]. reflexivity.
Defined.

Lemma unlock_leaves_uncounted_job :
  let s0 := mkState handle_A quiet_world in
  ∃ s, tryLock "1.4.1" read None false s0 = Some (Ok tt, s)
       ∧ count (this s) read = 0%nat
       ∧ unlock "1.4.1" (Some read) s = Some (Ok tt, s)
       ∧ unlockSync "1.4.1" (Some read) s = Some (Ok tt, s)
       ∧ holds_job read (this s) (record_of "1.4.1" s) = true
       ∧ readers (record_of "1.4.1" s) = [job_A].
Proof. intros s0. eexists. split; [reflexivity|]. repeat split. Qed.

Lemma reentrant_add_remove_witness :
  let s := mkState handle_A quiet_world in
  let granted :=
    persist (with_job read (new_job s None) (record_of "1.4.1" s))
      (logged (EvTryLock read) s) in
  (1 ≤ 2)%nat
  ∧ count (this s) read = 0%nat
  ∧ check "1.4.1" read s = Some (Ok (open "/tmp/x.lock"), s)
  ∧ repeatM 2 (add "1.4.1" [] read no_options) s
    = Some (Ok tt, with_count_state read 2 granted)
  ∧ repeatM 1 (remove "1.4.1" read) (with_count_state read 2 granted)
    = Some (Ok tt, with_count_state read 1 granted)
  ∧ repeatM 2 (remove "1.4.1" read) (with_count_state read 2 granted)
    = Some (Ok tt, released "1.4.1" read (with_count_state read 1 granted)).
Proof.
  intros s granted.
  assert (HN : (1 ≤ 2)%nat) by lia.
  assert (Hc : count (this s) read = 0%nat) by reflexivity.
  assert (Ho : check "1.4.1" read s = Some (Ok (open "/tmp/x.lock"), s))
    by reflexivity.
  do 3 (split; [assumption|]).
  destruct (reentrant_add_remove "1.4.1" 2 [] no_options s _ s HN Hc Ho)
    as (Hadd & _ & Hrem & Hlast & _).
  split; [apply Hadd; lia|]. split; [apply (Hrem 1%nat); lia|]. exact Hlast.
Defined.



Lemma ifLocked_fires_once_witness :
  let s := mkState handle_B
             (world_with (mkJSON "1.4.1" (Some job_A) []) (fun _ => Some true)) in
  let st := write_lock job_A "/tmp/x.lock" in
  let opts := mkLockOptions None (Some (callback "notify")) (Some 7%Q) None in
  match _lock "1.4.1" [immediately; immediately] write opts s with
  | Some (res, s') =>
    res = Throw (RWLockfileError st)
    ∧ ∃ evs, events (world s') = events (world s) ++ evs
             ∧ attempts evs = 3%nat ∧ waits evs = 2%nat ∧ hook_calls evs = 1%nat
  | None => False
  end.
Proof.
  intros s st opts.
  destruct (_lock "1.4.1" [immediately; immediately] write opts s)
    as [[res s']|] eqn:Hrun; [|vm_compute in Hrun; discriminate].
  destruct (ifLocked_fires_once "1.4.1" _ _ _ _ _ _ Hrun) as (evs & He & Ha & Hh & _).
  vm_compute in Hrun. injection Hrun as <- <-.
  split; [reflexivity|]. exists evs. split; [exact He|].
  simpl in He. subst evs. repeat split.
Defined.

(** Handle A, new on an empty file system, takes the read lock and then the
    write lock. *)
Lemma sample_reachable :
  ∃ sys, reachable "1.4.1" sys
         ∧ writer (load "1.4.1" (outside sys) "/tmp/x.lock") = Some job_A
         ∧ readers (load "1.4.1" (outside sys) "/tmp/x.lock") = [job_A].
Proof.
  set (sys0 := mkSystem ∅ quiet_world).
  assert (H0 : reachable "1.4.1" sys0).
  { apply reach_initial. split; [done|]. intros path. unfold load. simpl.
    rewrite lookup_empty. apply excl_empty. }
  set (sys1 := mkSystem (<["A" := handle_A]> ∅) quiet_world).
  assert (H1 : reachable "1.4.1" sys1).
  { eapply reach_step; [exact H0| |by intros u h _].
    apply (step_new "1.4.1" sys0 "A" "/tmp/x" no_handle_options 100).
    apply lookup_empty. }
  destruct (run_call "1.4.1" (CallAdd read no_options) (mkState handle_A quiet_world))
    as [[r2 s2]|] eqn:E2; [|vm_compute in E2; discriminate].
  pose proof (step_call "1.4.1" sys1 "A" handle_A _ r2 s2 (lookup_insert_eq _ _ _) E2)
    as Hs2.
  vm_compute in E2. injection E2 as <- <-.
  match type of Hs2 with
  | step _ _ (mkSystem (<[_ := this ?s]> _) _) => set (s2 := s) in *
  end.
  set (sys2 := mkSystem (<["A" := this s2]> (handles sys1)) (world s2)) in *.
  assert (H2 : reachable "1.4.1" sys2).
  { eapply reach_step; [exact H1|exact Hs2|by intros u h _]. }
  destruct (run_call "1.4.1" (CallAdd write no_options) (mkState (this s2) (world s2)))
    as [[r3 s3]|] eqn:E3; [|vm_compute in E3; discriminate].
  pose proof (step_call "1.4.1" sys2 "A" (this s2) _ r3 s3 (lookup_insert_eq _ _ _) E3)
    as Hs3.
  vm_compute in E3. injection E3 as <- <-.
  eexists. split; [eapply reach_step; [exact H2|exact Hs3|by intros u h _]|].
  split; reflexivity.
Qed.

Lemma mutual_exclusion_witness :
  ∃ sys, reachable "1.4.1" sys
         ∧ let f := load "1.4.1" (outside sys) "/tmp/x.lock" in
           writer f = Some job_A
           ∧ (length (option_list (writer f)) ≤ 1)%nat
           ∧ Forall (fun j => uuid j = uuid job_A) (readers f).
Proof.
  destruct sample_reachable as (sys & Hr & Hw & Hrs).
  exists sys. split; [exact Hr|].
  destruct (mutual_exclusion "1.4.1" sys "/tmp/x.lock" Hr) as [H1 H2].
  split; [exact Hw|]. split; [exact H1|]. exact (H2 job_A Hw).
Defined.

(** Two runs that leave a writer job beside a reader job.  Handle A, alone,
    adds read and then write: its reader job and its writer job sit in the
    record together.  And when the oracle reports the process of A, which
    holds write, as not running, B's add('write') purges A's writer job and
    installs its own, and A, still holding write by its counter, is then
    granted read without a look at the record: the record holds the writer
    job of B beside the reader job of A. *)
Lemma writer_beside_reader :
  (λ rs, (writer (record_of "1.4.1" rs.2), readers (record_of "1.4.1" rs.2)))
    <$> (add "1.4.1" [] read no_options >>> add "1.4.1" [] write no_options)
          (mkState handle_A quiet_world)
  = Some (Some job_A, [job_A])
  ∧ (∃ sys, reachable "1.4.1" sys
            ∧ ∃ w r, writer (load "1.4.1" (outside sys) "/tmp/x.lock") = Some w
                     ∧ In r (readers (load "1.4.1" (outside sys) "/tmp/x.lock")))
  ∧ ∃ sys0 sys hA,
      initial "1.4.1" sys0
      ∧ rtc (step "1.4.1") sys0 sys
      ∧ handles sys !! "A" = Some hA
      ∧ count hA write = 1%nat
      ∧ alive (outside sys) (process_pid hA) = false
      ∧ writer (load "1.4.1" (outside sys) "/tmp/x.lock") = Some (job_of "B" 200)
      ∧ readers (load "1.4.1" (outside sys) "/tmp/x.lock") = [job_A]
      ∧ uuid job_A ≠ uuid (job_of "B" 200).
Proof.
  split; [reflexivity|]. split.
  { destruct sample_reachable as (sys & Hr & Hw & Hrs).
    exists sys. split; [exact Hr|]. exists job_A, job_A. split; [exact Hw|].
    rewrite Hrs. by left. }
  set (sys0 := mkSystem ∅ quiet_world).
  set (sys1 := mkSystem (<["A" := handle_A]> ∅) quiet_world).
  set (sys2 := mkSystem (<["B" := handle_B]> (handles sys1)) quiet_world).
  assert (H01 : step "1.4.1" sys0 sys1).
  { apply (step_new "1.4.1" sys0 "A" "/tmp/x" no_handle_options 100). apply lookup_empty. }
  assert (H12 : step "1.4.1" sys1 sys2).
  { apply (step_new "1.4.1" sys1 "B" "/tmp/x" no_handle_options 200). reflexivity. }
  destruct (run_call "1.4.1" (CallAdd write no_options) (mkState handle_A quiet_world))
    as [[r3 s3]|] eqn:E3; [|vm_compute in E3; discriminate].
  pose proof (step_call "1.4.1" sys2 "A" handle_A _ r3 s3 eq_refl E3) as H23.
  vm_compute in E3. injection E3 as <- <-.
  match type of H23 with
  | step _ _ (mkSystem (<[_ := this ?s]> _) _) => set (s3 := s) in *
  end.
  set (sys3 := mkSystem (<["A" := this s3]> (handles sys2)) (world s3)) in *.
  set (w4 := mkWorld (files (world s3)) oracle_100 ∅ 0 []).
  set (sys4 := mkSystem (handles sys3) w4).
  assert (H34 : step "1.4.1" sys3 sys4) by by apply (step_outside "1.4.1" sys3 w4).
  destruct (run_call "1.4.1" (CallAdd write no_options) (mkState handle_B w4))
    as [[r5 s5]|] eqn:E5; [|vm_compute in E5; discriminate].
  pose proof (step_call "1.4.1" sys4 "B" handle_B _ r5 s5 eq_refl E5) as H45.
  vm_compute in E5. injection E5 as <- <-.
  match type of H45 with
  | step _ _ (mkSystem (<[_ := this ?s]> _) _) => set (s5 := s) in *
  end.
  set (sys5 := mkSystem (<["B" := this s5]> (handles sys4)) (world s5)) in *.
  destruct (run_call "1.4.1" (CallAdd read no_options) (mkState (this s3) (world s5)))
    as [[r6 s6]|] eqn:E6; [|vm_compute in E6; discriminate].
  pose proof (step_call "1.4.1" sys5 "A" (this s3) _ r6 s6 eq_refl E6) as H56.
  vm_compute in E6. injection E6 as <- <-.
  eexists sys0, _, _. split.
  { split; [done|]. intros path. unfold load. simpl. rewrite lookup_empty. apply excl_empty. }
  split.
  { eapply rtc_l; [exact H01|]. eapply rtc_l; [exact H12|]. eapply rtc_l; [exact H23|].
    eapply rtc_l; [exact H34|]. eapply rtc_l; [exact H45|]. eapply rtc_l; [exact H56|].
    apply rtc_refl. }
  split; [reflexivity|]. repeat split. discriminate.
Qed.

(** * Instances of the further properties *)

Lemma stored_record_round_trip_witness :
  let f := mkJSON "1.4.1" (Some job_A) [job_of "B" 200] in
  dated (_stringifyFile f) = true
  ∧ _parseFile (_stringifyFile f) = f
  ∧ _stringifyFile (_parseFile (_stringifyFile f)) = _stringifyFile f.
Proof.
  intros f.
  assert (Hd : dated (_stringifyFile f) = true) by reflexivity.
  split; [exact Hd|]. exact (stored_record_round_trip f (_stringifyFile f) Hd).
Defined.

Lemma check_only_reaps_witness :
  let stale := job_of "A" 999 in
  let live := job_of "C" 300 in
  let s := mkState handle_B
             (world_with (mkJSON "1.4.1" (Some stale) [live]) oracle_999) in
  let s' := persist (delete_writer (record_of "1.4.1" s)) s in
  check "1.4.1" read s = Some (Ok (open "/tmp/x.lock"), s')
  ∧ this s' = this s
  ∧ In live (readers (record_of "1.4.1" s')).
Proof.
  intros stale live s s'.
  assert (Hc : check "1.4.1" read s = Some (Ok (open "/tmp/x.lock"), s'))
    by reflexivity.
  split; [exact Hc|].
  destruct (check_only_reaps "1.4.1" read s _ s' (or_introl Hc))
    as (Ht & _ & _ & _ & _ & _ & Hkeep).
  split; [exact Ht|]. apply Hkeep; [by left|reflexivity].
Defined.

Lemma check_idempotent_witness :
  let s := mkState handle_B
             (world_with (mkJSON "1.4.1" (Some (job_of "A" 999)) [job_of "C" 300])
                oracle_999) in
  let s1 := persist (set_readers (delete_writer (record_of "1.4.1" s))
                       [job_of "C" 300]) s in
  let st := read_lock "/tmp/x.lock" [job_of "C" 300] in
  check "1.4.1" write s = Some (Ok st, s1)
  ∧ checkSync "1.4.1" write s = Some (Ok st, s1)
  ∧ check "1.4.1" write s1 = Some (Ok st, s1)
  ∧ checkSync "1.4.1" write s1 = Some (Ok st, s1).
Proof.
  intros s s1 st.
  assert (H1 : check "1.4.1" write s = Some (Ok st, s1)) by reflexivity.
  assert (H2 : checkSync "1.4.1" write s = Some (Ok st, s1)) by reflexivity.
  split; [exact H1|]. split; [exact H2|].
  exact (check_idempotent "1.4.1" write s _ s1 _ s1 H1 H2).
Defined.

Lemma live_writer_blocks_witness :
  let s := mkState handle_B
             (world_with (mkJSON "1.4.1" (Some job_A) []) (fun _ => Some true)) in
  let st := write_lock job_A "/tmp/x.lock" in
  (file (this s) ∉ guarded (world s))
  ∧ writer (record_of "1.4.1" s) = Some job_A
  ∧ alive (world s) (pid job_A) = true
  ∧ check "1.4.1" read s = Some (Ok st, s)
  ∧ tryLock "1.4.1" read None true s = Some (Throw (RWLockfileError st), s)
  ∧ addSync "1.4.1" read None s = Some (Throw (RWLockfileError st), s).
Proof.
  intros s st.
  assert (Hg : file (this s) ∉ guarded (world s)) by apply not_elem_of_empty.
  assert (Hw : writer (record_of "1.4.1" s) = Some job_A) by reflexivity.
  assert (Ha : alive (world s) (pid job_A) = true) by reflexivity.
  do 3 (split; [assumption|]).
  destruct (live_writer_blocks "1.4.1" read None true s job_A Hg eq_refl eq_refl Hw Ha)
    as (H1 & _ & H3 & H4).
  split; [exact H1|]. split; [exact H3|exact H4].
Defined.

Lemma live_reader_blocks_writer_witness :
  let s := mkState handle_B
             (world_with (mkJSON "1.4.1" None [job_A]) (fun _ => Some true)) in
  (file (this s) ∉ guarded (world s))
  ∧ In job_A (readers (record_of "1.4.1" s))
  ∧ foreign (this s) job_A = true
  ∧ ∃ jobs s', tryLock "1.4.1" write None true s
               = Some (Throw (RWLockfileError (read_lock "/tmp/x.lock" jobs)), s')
               ∧ In job_A jobs ∧ writer (record_of "1.4.1" s') = None.
Proof.
  intros s.
  assert (Hg : file (this s) ∉ guarded (world s)) by apply not_elem_of_empty.
  assert (Hin : In job_A (readers (record_of "1.4.1" s))) by (by left).
  assert (Hf : foreign (this s) job_A = true) by reflexivity.
  do 3 (split; [assumption|]).
  destruct (live_reader_blocks_writer "1.4.1" None true s job_A Hg eq_refl eq_refl
              Hin Hf eq_refl) as (jobs & s' & _ & Ht & Hj & _ & Hw & _).
  exists jobs, s'. split; [exact Ht|]. split; [exact Hj|exact Hw].
Defined.

Lemma read_lock_is_shared_witness :
  let s := mkState handle_B
             (world_with (mkJSON "1.4.1" None [job_of "A" 999]) oracle_999) in
  let s' := bump read
              (persist (with_job read (new_job s None) (record_of "1.4.1" s)) s) in
  (file (this s) ∉ guarded (world s))
  ∧ writer (record_of "1.4.1" s) = None
  ∧ tryLock "1.4.1" read None true s = Some (Ok tt, s')
  ∧ readers (record_of "1.4.1" s') = [job_of "A" 999; job_of "B" 200].
Proof.
  intros s s'.
  assert (Hg : file (this s) ∉ guarded (world s)) by apply not_elem_of_empty.
  assert (Hw : writer (record_of "1.4.1" s) = None) by reflexivity.
  do 2 (split; [assumption|]).
  destruct (read_lock_is_shared "1.4.1" None s Hg eq_refl eq_refl Hw)
    as (H1 & _ & _ & H4 & _).
  split; [exact H1|exact H4].
Defined.

Lemma failed_attempt_grants_nothing_witness :
  let s := mkState handle_B
             (world_with (mkJSON "1.4.1" (Some job_A) [job_A]) (fun _ => Some true)) in
  let e := RWLockfileError (write_lock job_A "/tmp/x.lock") in
  tryLock "1.4.1" write None true s = Some (Throw e, s)
  ∧ this s = this s
  ∧ ∀ j, In j (readers (record_of "1.4.1" s)) → In j (readers (record_of "1.4.1" s)).
Proof.
  intros s e.
  assert (Hf : tryLock "1.4.1" write None true s = Some (Throw e, s)) by reflexivity.
  split; [exact Hf|].
  destruct (failed_attempt_grants_nothing "1.4.1" write None true s e s (or_introl Hf))
    as (Ht & _ & _ & Hr).
  split; [exact Ht|exact Hr].
Defined.

Lemma write_grant_release_round_trip_witness :
  let s := mkState handle_A
             (world_with (mkJSON "1.4.1" None [job_A]) (fun _ => Some true)) in
  let held :=
    bump write (persist (with_job write (new_job s None) (record_of "1.4.1" s)) s) in
  count (this s) write = 0%nat
  ∧ check "1.4.1" write s = Some (Ok (open "/tmp/x.lock"), s)
  ∧ tryLock "1.4.1" write None true s = Some (Ok tt, held)
  ∧ remove "1.4.1" write held = Some (Ok tt, released "1.4.1" write held)
  ∧ writer (record_of "1.4.1" (released "1.4.1" write held)) = None
  ∧ readers (record_of "1.4.1" (released "1.4.1" write held)) = [job_A].
Proof.
  intros s held.
  assert (Hc : count (this s) write = 0%nat) by reflexivity.
  assert (Ho : check "1.4.1" write s = Some (Ok (open "/tmp/x.lock"), s))
    by reflexivity.
  do 2 (split; [assumption|]).
  destruct (write_grant_release_round_trip "1.4.1" None s _ s Hc Ho)
    as (H1 & _ & _ & H4 & _ & _ & _ & H8 & H9).
  split; [exact H1|]. split; [exact H4|]. split; [exact H8|exact H9].
Defined.

Lemma release_keeps_foreign_jobs_witness :
  let s := with_count_state read 3
             (mkState handle_A
                (world_with (mkJSON "1.4.1" (Some (job_of "B" 200))
                               [job_A; job_of "B" 200; job_A])
                   (fun _ => Some true))) in
  (file (this s) ∉ guarded (world s))
  ∧ count (this s) read = 3%nat
  ∧ unlock "1.4.1" (Some read) s = Some (Ok tt, released "1.4.1" read s)
  ∧ readers (record_of "1.4.1" (released "1.4.1" read s)) = [job_of "B" 200]
  ∧ writer (record_of "1.4.1" (released "1.4.1" read s)) = Some (job_of "B" 200).
Proof.
  intros s.
  assert (Hg : file (this s) ∉ guarded (world s)) by apply not_elem_of_empty.
  assert (Hc : count (this s) read = 3%nat) by reflexivity.
  do 2 (split; [assumption|]).
  destruct (release_keeps_foreign_jobs "1.4.1" read s 2 Hg Hc) as (H1 & _ & H3 & H4 & _).
  split; [exact H1|]. split; [exact H3|exact H4].
Defined.

Lemma garbage_file_is_open_witness :
  let s := mkState handle_A quiet_world in
  (file (this s) ∉ guarded (world s))
  ∧ files (world (garbled s)) !! "/tmp/x.lock" = Some Garbage
  ∧ check "1.4.1" write (garbled s) = Some (Ok (open "/tmp/x.lock"), garbled s)
  ∧ ∃ s', tryLock "1.4.1" write None true (garbled s) = Some (Ok tt, s')
          ∧ record_of "1.4.1" s' = mkJSON "1.4.1" (Some job_A) [].
Proof.
  intros s.
  assert (Hg : file (this s) ∉ guarded (world s)) by apply not_elem_of_empty.
  split; [exact Hg|]. split; [reflexivity|].
  destruct (garbage_file_is_open "1.4.1" write None s Hg eq_refl eq_refl)
    as (H1 & _ & H3 & _ & H5).
  split; [exact H1|]. eexists. split; [exact H3|exact H5].
Defined.

Lemma only_add_calls_out_witness :
  let s := mkState handle_B
             (world_with (mkJSON "1.4.1" (Some job_A) []) (fun _ => Some true)) in
  let e := RWLockfileError (write_lock job_A "/tmp/x.lock") in
  run_call "1.4.1" (CallAddSync write None) s = Some (Throw e, s)
  ∧ events (world s) = events (world s).
Proof.
  intros s e.
  assert (Hr : run_call "1.4.1" (CallAddSync write None) s = Some (Throw e, s))
    by reflexivity.
  split; [exact Hr|].
  exact (only_add_calls_out "1.4.1" (CallAddSync write None) s _ s I Hr).
Defined.



Lemma exit_handler_releases_witness :
  let h := with_count (with_count handle_A read 2) write 1 in
  let w := world_with (mkJSON "1.4.1" (Some job_A) [job_of "B" 200; job_A])
             (fun _ => Some true) in
  (∀ i, In i [h; handle_B] → file i ∉ guarded w)
  ∧ ∃ w', on_exit "1.4.1" [h; handle_B] w = Some ([handle_A; handle_B], w')
          ∧ holds_job read h (load "1.4.1" w' (file h)) = false
          ∧ holds_job write h (load "1.4.1" w' (file h)) = false.
Proof.
  intros h w.
  assert (Hg : ∀ i, In i [h; handle_B] → file i ∉ guarded w)
    by (intros i _; apply not_elem_of_empty).
  split; [exact Hg|].
  destruct (exit_handler_releases "1.4.1" [h; handle_B] w Hg) as (w' & Hrun & _ & Hrel).
  exists w'. split; [exact Hrun|].
  split; apply Hrel; try (by left); discriminate.
Defined.

Lemma exit_handler_swallows_witness :
  let h := with_count handle_A write 1 in
  let w := mkWorld {["/tmp/x.lock" := JSONText (_stringifyFile
                                        (mkJSON "1.4.1" (Some job_A) []))]}
             (fun _ => Some true) {["/tmp/x.lock"]} 0 [] in
  (∀ i, In i [h] → file i ∈ guarded w)
  ∧ on_exit "1.4.1" [h] w = Some ([h], w).
Proof.
  intros h w.
  assert (Hg : ∀ i, In i [h] → file i ∈ guarded w).
  { intros i [<-|[]].
    change ("/tmp/x.lock" ∈ ({["/tmp/x.lock"]} : gset string)).
    by apply elem_of_singleton_2. }
  split; [exact Hg|]. exact (exit_handler_swallows "1.4.1" [h] w Hg).
Defined.

Lemma reentrant_acquisition_only_counts_witness :
  let s := with_count_state read 1
             (mkState handle_A
                (mkWorld ∅ (fun _ => Some true) {["/tmp/x.lock"]} 0 [])) in
  count (this s) read = 1%nat
  ∧ add "1.4.1" [] read no_options s = Some (Ok tt, bump read s)
  ∧ addSync "1.4.1" read None s = Some (Throw GuardAcquisitionError, s).
Proof.
  intros s.
  assert (Hc : count (this s) read = 1%nat) by reflexivity.
  split; [exact Hc|].
  destruct (reentrant_acquisition_only_counts "1.4.1" [] read no_options None s 0 Hc)
    as (H1 & _ & H3).
  split; [exact H1|]. rewrite H3. reflexivity.
Defined.

Lemma remove_saturates_witness :
  let s := with_count_state read 3
             (mkState handle_A
                (world_with (mkJSON "1.4.1" None [job_A]) (fun _ => Some true))) in
  (file (this s) ∉ guarded (world s))
  ∧ count (this s) read = 3%nat
  ∧ repeatM 5 (remove "1.4.1" read) s
    = Some (Ok tt, released "1.4.1" read (with_count_state read 1 s)).
Proof.
  intros s.
  assert (Hg : file (this s) ∉ guarded (world s)) by apply not_elem_of_empty.
  assert (Hc : count (this s) read = 3%nat) by reflexivity.
  do 2 (split; [assumption|]).
  exact (proj1 (remove_saturates "1.4.1" read 2 2 s Hg Hc)).
Defined.

Lemma grant_respects_exclusion_witness :
  let s := mkState handle_A
             (world_with (mkJSON "1.4.1" None [job_A; job_of "B" 999]) oracle_999) in
  let s' := bump write
              (persist (with_job write (new_job s None)
                          (mkJSON "1.4.1" None [job_A])) s) in
  tryLock "1.4.1" write None true s = Some (Ok tt, s')
  ∧ holds_job write (this s) (record_of "1.4.1" s') = true
  ∧ Forall (fun j => uuid j = h_uuid (this s)) (readers (record_of "1.4.1" s')).
Proof.
  intros s s'.
  assert (Ht : tryLock "1.4.1" write None true s = Some (Ok tt, s')) by reflexivity.
  split; [exact Ht|].
  destruct (grant_respects_exclusion "1.4.1" write None true s s' eq_refl eq_refl
              (or_introl Ht)) as (Hh & _ & Hall).
  split; [exact Hh|exact Hall].
Defined.

Lemma call_touches_own_record_only_witness :
  let s := mkState handle_B
             (mkWorld {["/tmp/x.lock" := JSONText (_stringifyFile
                                           (mkJSON "1.4.1" (Some (job_of "A" 999)) []));
                        "/tmp/y.lock" := Garbage]}
                oracle_999 ∅ 0 []) in
  ∃ s', run_call "1.4.1" (CallTryLock write None true) s = Some (Ok tt, s')
        ∧ files (world s') !! "/tmp/y.lock" = Some Garbage
        ∧ h_uuid (this s') = "B".
Proof.
  intros s.
  destruct (run_call "1.4.1" (CallTryLock write None true) s) as [[r s']|] eqn:Hrun;
    [|vm_compute in Hrun; discriminate].
  destruct (call_touches_own_record_only "1.4.1" _ s r s' Hrun) as (_ & Hu & _ & _ & Hf).
  assert (r = Ok tt) as -> by (vm_compute in Hrun; by injection Hrun as <- _).
  exists s'. split; [reflexivity|]. split; [|exact Hu].
  rewrite Hf; [reflexivity|discriminate].
Defined.

Lemma add_counts_once_witness :
  let s := mkState handle_B
             (world_with (mkJSON "1.4.1" (Some job_A) []) (fun _ => Some true)) in
  let opts := mkLockOptions None None (Some 1%Q) (Some 5%Q) in
  match add "1.4.1" [immediately] write opts s with
  | Some (r, s') => count (this s') write = 0%nat ∧ count (this s') read = 0%nat
  | None => False
  end.
Proof.
  intros s opts.
  destruct (add "1.4.1" [immediately] write opts s) as [[r s']|] eqn:Hrun;
    [|vm_compute in Hrun; discriminate].
  destruct (add_counts_once "1.4.1" _ _ _ _ _ _ Hrun) as [Hc Ho].
  assert (r = Throw (RWLockfileError (write_lock job_A "/tmp/x.lock"))) as ->
    by (vm_compute in Hrun; by injection Hrun as <- _).
  split; [exact Hc|]. by apply Ho.
Defined.

Lemma async_and_sync_agree_witness :
  let s := mkState handle_B
             (world_with (mkJSON "1.4.1" None [job_of "A" 999; job_of "C" 300])
                oracle_999) in
  Forall (fun j => pid j ≠ 0) (readers (record_of "1.4.1" s))
  ∧ check "1.4.1" write s = checkSync "1.4.1" write s
  ∧ tryLock "1.4.1" write None true s = addSync "1.4.1" write None s.
Proof.
  intros s.
  assert (Hnz : Forall (fun j => pid j ≠ 0) (readers (record_of "1.4.1" s)))
    by (repeat constructor; discriminate).
  split; [exact Hnz|]. exact (async_and_sync_agree "1.4.1" write None s Hnz).
Defined.
